(** * Viper Duel: room lifecycle, game start-up and settlement hand-off

    A shallow embedding of the server of the two-player snake duel:
    - [Engine]: the game module ([game-init.js], re-exported by [snake.js]),
      together with the per-tick simulation the handlers drive;
    - [Rooms]: the room registry the handlers talk to;
    - [Settlement]: close allocations of an app session;
    - [Handlers]: the WebSocket game handlers ([websocket/handlers/game.js])
      as state transformers over the server's mutable state.

    JavaScript objects become records, [Map]s become [gmap]s, [null] and
    [undefined] become [None], a thrown exception becomes an explicit
    outcome, and module-level mutable state is threaded explicitly. *)

From Stdlib Require Import ZArith QArith Lia.
From stdpp Require Import gmap strings list fin_maps.

Local Open Scope string_scope.
Local Open Scope list_scope.
Local Open Scope Z_scope.

(** ** The game module *)

Module Engine.

(** *** Constants ([game-constants.js])

    Modelled from the spec: the constants file is not part of the sources;
    the values are the ones the header of [snake.js] and the game README
    state (20x20 grid, three initial segments, three food items). *)
Definition GRID_WIDTH : Z := 20.
Definition GRID_HEIGHT : Z := 20.
Definition INITIAL_SNAKE_LENGTH : Z := 3.
Definition MIN_FOOD_COUNT : nat := 3.

Inductive Direction := UP | DOWN | LEFT | RIGHT.

#[global] Instance Direction_eq_dec : EqDecision Direction.
Proof. solve_decision. Defined.

Record Position := { x : Z; y : Z }.

#[global] Instance Position_eq_dec : EqDecision Position.
Proof. solve_decision. Defined.

(** A snake as [createInitialSnake] builds it.  The object literal has no
    [nextDirection] property, so a fresh snake has none queued. *)
Record Snake := {
  body : list Position;
  direction : Direction;
  nextDirection : option Direction;
  alive : bool;
  score : Z
}.

(** The two-slot objects [{ player1: ..., player2: ... }]. *)
Record PerPlayer (A : Type) := { player1 : A; player2 : A }.
Arguments player1 {A} _.
Arguments player2 {A} _.

Record GameState := {
  snakes : PerPlayer Snake;
  food : list Position;
  winner : option string;
  isGameOver : bool;
  players : PerPlayer string;
  gameTime : Z
}.

(** The cell pushed at iteration [i] of the loop of [createInitialSnake]. *)
Definition segment (startX startY : Z) (d : Direction) (i : Z) : Position :=
  match d with
  | RIGHT => {| x := startX - i; y := startY |}
  | LEFT => {| x := startX + i; y := startY |}
  | DOWN => {| x := startX; y := startY - i |}
  | UP => {| x := startX; y := startY + i |}
  end.

(** JavaScript numbers are doubles: [startX - i] and the like are the exact
    integers of the model as long as the start coordinates are integers
    within [safeStart] of zero, as the ones [createGame] passes are. *)
Definition safeStart : Z := 2 ^ 53 - 2.

(** [for (let i = 0; i < INITIAL_SNAKE_LENGTH; i++) body.push(...)]:
    [n] counts the iterations left, [i] is the loop variable. *)

Fixpoint pushSegments (n : nat) (i : Z) (startX startY : Z) (d : Direction)
    (acc : list Position) : list Position :=
  match n with
  | O => acc
  | S n' => pushSegments n' (i + 1) startX startY d (acc ++ [segment startX startY d i])
  end.

Definition createInitialSnake (startX startY : Z) (d : Direction) : Snake :=
  {| body := pushSegments (Z.to_nat INITIAL_SNAKE_LENGTH) 0 startX startY d [];
     direction := d;
     nextDirection := None;
     alive := true;
     score := 0 |}.

(** Modelled from the spec: [spawnFood] lives in [game-food.js], which is
    not part of the sources.  Its random choice is an oracle: the stream of
    raw draws the successive calls consume. *)
Definition Rng := nat -> nat.

Definition drop_draws (k : nat) (r : Rng) : Rng := fun n => r (k + n)%nat.

Definition spawnFood (r : Rng) : Position * Rng :=
  ({| x := Z.of_nat (r 0%nat) `mod` GRID_WIDTH;
      y := Z.of_nat (r 1%nat) `mod` GRID_HEIGHT |}, drop_draws 2 r).

(** [ethers.getAddress]: the checksummed form of an address, or an
    exception ([None]) when the string is not a valid address. *)
Class Ethers := { getAddress : string -> option string }.

(** [createGame].  The two [getAddress] calls run first and either may
    throw; the three [spawnFood] calls are evaluated left to right. *)
Definition createGame `{Ethers} (hostEoa guestEoa : string) (r : Rng)
    : option (GameState * Rng) :=
  match getAddress hostEoa with
  | None => None
  | Some formattedHostEoa =>
    match getAddress guestEoa with
    | None => None
    | Some formattedGuestEoa =>
      let '(f1, r1) := spawnFood r in
      let '(f2, r2) := spawnFood r1 in
      let '(f3, r3) := spawnFood r2 in
      Some ({| snakes := {| player1 := createInitialSnake 3 3 RIGHT;
                            player2 := createInitialSnake (GRID_WIDTH - 4) (GRID_HEIGHT - 4) LEFT |};
               food := [f1; f2; f3];
               winner := None;
               isGameOver := false;
               players := {| player1 := formattedHostEoa; player2 := formattedGuestEoa |};
               gameTime := 0 |}, r3)
    end
  end.

(** *** The tick ([game-movement.js], [game-food.js])

    Modelled from the spec: the movement and food modules are not part of
    the sources.  The definitions below follow the seven steps of the
    Simulation Engine's [advance] operation and the snippets of the game
    README (wraparound, self and other-snake collision, food lookup). *)

(** Screen coordinates: [createInitialSnake] lays the body of a snake heading
    RIGHT towards smaller [x] and of one heading DOWN towards smaller [y]. *)
Definition unitVector (d : Direction) : Z * Z :=
  match d with
  | UP => (0, -1)
  | DOWN => (0, 1)
  | LEFT => (-1, 0)
  | RIGHT => (1, 0)
  end.

Definition opposite (d : Direction) : Direction :=
  match d with
  | UP => DOWN
  | DOWN => UP
  | LEFT => RIGHT
  | RIGHT => LEFT
  end.

(** [newX = (newX + GRID_WIDTH) % GRID_WIDTH]; JavaScript's [%] takes the
    sign of the dividend, which is [Z.rem]. *)
Definition calculateNewHead (head : Position) (d : Direction) : Position :=
  let newX := x head + fst (unitVector d) in
  let newY := y head + snd (unitVector d) in
  {| x := Z.rem (newX + GRID_WIDTH) GRID_WIDTH;
     y := Z.rem (newY + GRID_HEIGHT) GRID_HEIGHT |}.

(** [snake.body.slice(1).some(segment => segment is the head)]. *)
Definition checkSelfCollision (s : Snake) : bool :=
  match body s with
  | [] => false
  | head :: rest => bool_decide (head ∈ rest)
  end.

(** [otherSnake.body.some(segment => segment is the head)]. *)
Definition checkOtherSnakeCollision (s other : Snake) : bool :=
  match body s with
  | [] => false
  | head :: _ => bool_decide (head ∈ body other)
  end.

Definition checkFoodCollision (head : Position) (fd : list Position) : bool :=
  bool_decide (head ∈ fd).

(** Removes the first occurrence, as [food.splice(foodIndex, 1)] does. *)
Fixpoint removeFood (p : Position) (fd : list Position) : list Position :=
  match fd with
  | [] => []
  | q :: rest => if decide (q = p) then rest else q :: removeFood p rest
  end.

(** Step 1: an alive actor's heading becomes its queued heading, whatever
    the two are. *)
Definition applyNextDirection (s : Snake) : Snake :=
  if alive s then
    match nextDirection s with
    | Some d =>
        {| body := body s; direction := d; nextDirection := nextDirection s;
           alive := alive s; score := score s |}
    | None => s
    end
  else s.

(** Steps 2 and 3 for one actor: the new head, then growth on food or the
    tail dropped. *)
Definition moveSnake (s : Snake) (fd : list Position) : Snake * list Position :=
  if alive s then
    match body s with
    | [] => (s, fd)
    | head :: _ =>
        let newHead := calculateNewHead head (direction s) in
        if checkFoodCollision newHead fd then
          ({| body := newHead :: body s; direction := direction s;
              nextDirection := nextDirection s; alive := alive s;
              score := score s + 1 |}, removeFood newHead fd)
        else
          ({| body := newHead :: removelast (body s); direction := direction s;
              nextDirection := nextDirection s; alive := alive s;
              score := score s |}, fd)
    end
  else (s, fd).

(** Steps 4 and 5: death by self collision or by collision with the other
    actor's post-growth body.  No other condition kills. *)
Definition killed (s other : Snake) : bool :=
  checkSelfCollision s || checkOtherSnakeCollision s other.

Definition settle (s other : Snake) : Snake :=
  {| body := body s; direction := direction s; nextDirection := nextDirection s;
     alive := alive s && negb (killed s other); score := score s |}.

Definition allCells : list Position :=
  i ← seqZ 0 GRID_WIDTH; j ← seqZ 0 GRID_HEIGHT; [{| x := i; y := j |}].

Definition isPositionOccupied (p : Position) (ss : PerPlayer Snake)
    (fd : list Position) : bool :=
  bool_decide (p ∈ body (player1 ss) ++ body (player2 ss) ++ fd).

(** Step 6: food is resupplied up to the minimum, each new cell drawn among
    the cells occupied neither by an actor nor by food. *)
Fixpoint ensureMinimumFood (missing : nat) (ss : PerPlayer Snake)
    (fd : list Position) (r : Rng) : list Position * Rng :=
  match missing with
  | O => (fd, r)
  | S k =>
      let free := filter (fun p => isPositionOccupied p ss fd = false) allCells in
      match free !! (r 0%nat `mod` length free)%nat with
      | Some p => ensureMinimumFood k ss (fd ++ [p]) (drop_draws 1 r)
      | None => (fd, drop_draws 1 r)
      end
  end.

(** Step 7. *)
Definition terminalResult (ss : PerPlayer Snake) : bool * option string :=
  match alive (player1 ss), alive (player2 ss) with
  | true, true => (false, None)
  | true, false => (true, Some "player1")
  | false, true => (true, Some "player2")
  | false, false => (true, None)
  end.

Definition updateGame (gs : GameState) (r : Rng) : GameState * Rng :=
  let s1 := applyNextDirection (player1 (snakes gs)) in
  let s2 := applyNextDirection (player2 (snakes gs)) in
  let '(m1, fd1) := moveSnake s1 (food gs) in
  let '(m2, fd2) := moveSnake s2 fd1 in
  let ss := {| player1 := settle m1 m2; player2 := settle m2 m1 |} in
  let '(fd3, r') := ensureMinimumFood (MIN_FOOD_COUNT - length fd2) ss fd2 r in
  let '(over, win) := terminalResult ss in
  ({| snakes := ss; food := fd3; winner := win; isGameOver := over;
      players := players gs; gameTime := gameTime gs + 1 |}, r').

Definition setNextDirection (d : Direction) (s : Snake) : Snake :=
  {| body := body s; direction := direction s; nextDirection := Some d;
     alive := alive s; score := score s |}.

(** [changeDirection(gameState, playerAddress, direction)]: the player's
    queued heading is overwritten; no check against the current heading. *)
Definition changeDirection (gs : GameState) (playerAddress : string)
    (d : Direction) : GameState :=
  let ss := snakes gs in
  let ss' :=
    if decide (playerAddress = player1 (players gs)) then
      {| player1 := setNextDirection d (player1 ss); player2 := player2 ss |}
    else if decide (playerAddress = player2 (players gs)) then
      {| player1 := player1 ss; player2 := setNextDirection d (player2 ss) |}
    else ss in
  {| snakes := ss'; food := food gs; winner := winner gs;
     isGameOver := isGameOver gs; players := players gs; gameTime := gameTime gs |}.

(** Match states the server can reach: a fresh game, then direction changes
    and ticks in any order. *)
Inductive reachable `{Ethers} : GameState -> Prop :=
| reachable_create hostEoa guestEoa r gs r' :
    createGame hostEoa guestEoa r = Some (gs, r') -> reachable gs
| reachable_direction gs playerAddress d :
    reachable gs -> reachable (changeDirection gs playerAddress d)
| reachable_tick gs r :
    reachable gs -> reachable (fst (updateGame gs r)).

Definition inBounds (p : Position) : Prop :=
  0 <= x p < GRID_WIDTH /\ 0 <= y p < GRID_HEIGHT.

Definition headOf (s : Snake) : option Position := head (body s).

(** The head plus the unit vector of the heading, before wrapping. *)
Definition stepX (h : Position) (d : Direction) : Z := x h + fst (unitVector d).
Definition stepY (h : Position) (d : Direction) : Z := y h + snd (unitVector d).

(** The invariant of a match: every snake has a head, and every cell of
    every snake lies on the grid. *)
Definition snakeOnGrid (s : Snake) : Prop :=
  body s <> [] /\ Forall inBounds (body s).

Definition onGrid (gs : GameState) : Prop :=
  snakeOnGrid (player1 (snakes gs)) /\ snakeOnGrid (player2 (snakes gs)).

(** The cell [i] steps behind [head] for a snake heading [d]. *)
Definition behind (head : Position) (d : Direction) (i : Z) : Position :=
  {| x := x head - i * fst (unitVector d); y := y head - i * snd (unitVector d) |}.

(** A snake as [createGame] lays it out: alive, score 0, heading [d], its
    three cells in a row behind [head]. *)
Definition freshSnake (s : Snake) (head : Position) (d : Direction) : Prop :=
  alive s = true /\ score s = 0 /\ direction s = d
  /\ Z.of_nat (length (body s)) = INITIAL_SNAKE_LENGTH
  /\ INITIAL_SNAKE_LENGTH = 3
  /\ headOf s = Some head
  /\ forall k : nat, Z.of_nat k < INITIAL_SNAKE_LENGTH ->
       body s !! k = Some (behind head d (Z.of_nat k)).

End Engine.

(** ** The room registry ([game/rooms.js]) *)

Module Rooms.

(** The bet amounts [validators.js] accepts, as its README lists them:
    [const VALID_BET_AMOUNTS = [0, 0.01, 0.1, 1, 2]].  The literals are
    only ever compared for equality, so exact rationals stand for them. *)
Definition VALID_BET_AMOUNTS : list Q := [0; 1 # 100; 1 # 10; 1; 2]%Q.

(** [VALID_BET_AMOUNTS.includes(amount)]. *)
Definition isValidBetAmount (amount : Q) : bool :=
  existsb (Qeq_bool amount) VALID_BET_AMOUNTS.

Record RoomPlayers := { host : option string; guest : option string }.

(** The room object of the README's "Room Structure", with the [appId] the
    game handlers read. *)
Record Room := {
  id : string;
  players : RoomPlayers;
  betAmount : Q;
  gameState : option Engine.GameState;
  isReady : bool;
  appId : option string;
  createdAt : Z
}.

(** The room states of the README, read off the room object. *)
Inductive RoomState := waiting | ready | playing | finished.

Definition roomState (r : Room) : RoomState :=
  match gameState r with
  | Some gs => if Engine.isGameOver gs then finished else playing
  | None => if isReady r then ready else waiting
  end.

(** The players a broadcast to the room reaches. *)
Definition participants (r : Room) : list string :=
  option_list (host (players r)) ++ option_list (guest (players r)).

Inductive RoomError := InvalidStake | RoomNotFound | RoomFull | StakeMismatch.

(** Modelled from the spec: [rooms.js] and [handlers/room.js] are not part
    of the sources.  [createRoom], [joinRoom], [handleJoinRoom] and
    [closeRoom] follow the Room Registry operations of the spec and the
    join flow of the handlers README (validate room exists, validate not
    full, validate bet amount matches, add guest, mark ready, notify both
    players).  The fresh room id and the clock are arguments. *)
Definition createRoom (rooms : gmap string Room) (roomId hostEOA : string)
    (amount : Q) (now : Z) : RoomError + gmap string Room :=
  if isValidBetAmount amount then
    inr (<[roomId := {| id := roomId;
                        players := {| host := Some hostEOA; guest := None |};
                        betAmount := amount;
                        gameState := None;
                        isReady := false;
                        appId := None;
                        createdAt := now |}]> rooms)
  else inl InvalidStake.

Definition addGuest (room : Room) (guestEOA : string) : Room :=
  {| id := id room;
     players := {| host := host (players room); guest := Some guestEOA |};
     betAmount := betAmount room;
     gameState := gameState room;
     isReady := true;
     appId := appId room;
     createdAt := createdAt room |}.

Definition joinRoom (rooms : gmap string Room) (roomId guestEOA : string)
    (amount : Q) : (RoomError + Room) * gmap string Room :=
  match rooms !! roomId with
  | None => (inl RoomNotFound, rooms)
  | Some room =>
      match guest (players room) with
      | Some _ => (inl RoomFull, rooms)
      | None =>
          if Qeq_bool amount (betAmount room) then
            let room' := addGuest room guestEOA in
            (inr room', <[roomId := room']> rooms)
          else (inl StakeMismatch, rooms)
      end
  end.

Inductive RoomMessage :=
| RoomReady (snapshot : Room)
| JoinFailed (e : RoomError).

(** What the join handler sends, as (recipient, message) pairs: the error to
    the caller, or [room:ready] to every participant of the joined room. *)
Definition handleJoinRoom (rooms : gmap string Room) (roomId guestEOA : string)
    (amount : Q) : list (string * RoomMessage) * gmap string Room :=
  match joinRoom rooms roomId guestEOA amount with
  | (inl e, rooms') => ([(guestEOA, JoinFailed e)], rooms')
  | (inr room', rooms') =>
      (map (fun p => (p, RoomReady room')) (participants room'), rooms')
  end.

(** [retire(roomId)]: the room and all it owns are removed; a no-op when the
    room is already absent. *)
Definition closeRoom (rooms : gmap string Room) (roomId : string)
    : gmap string Room :=
  delete roomId rooms.

Definition setGameState (room : Room) (gs : Engine.GameState) : Room :=
  {| id := id room;
     players := players room;
     betAmount := betAmount room;
     gameState := Some gs;
     isReady := isReady room;
     appId := appId room;
     createdAt := createdAt room |}.

(** The result objects [{ success, error, gameState, isGameOver }] and
    [{ success, error }]. *)
Inductive UpdateResult :=
| UpdateFailed (error : string)
| Updated (gs : Engine.GameState) (over : bool).

Inductive DirectionResult :=
| DirectionFailed (error : string)
| DirectionAccepted.

(** The methods of the [roomManager] object the game handlers call.  The
    handlers read [roomManager.rooms] directly, so the methods act on that
    map; [updateGameState] also consumes randomness for the food. *)
Class RoomManager := {
  updateGameState :
    gmap string Room -> Engine.Rng -> string ->
    UpdateResult * gmap string Room * Engine.Rng;
  processDirectionChange :
    gmap string Room -> option string -> option string -> string ->
    DirectionResult * gmap string Room;
  closeRoomOf : gmap string Room -> string -> gmap string Room
}.

Definition parseDirection (s : string) : option Engine.Direction :=
  if decide (s = "UP") then Some Engine.UP
  else if decide (s = "DOWN") then Some Engine.DOWN
  else if decide (s = "LEFT") then Some Engine.LEFT
  else if decide (s = "RIGHT") then Some Engine.RIGHT
  else None.

(** Modelled from the spec: the Match Scheduler's [queueDirection] (fails
    for an unknown room or a player not in the room, inert when the room is
    not playing) and the per-room tick. *)
Definition specProcessDirectionChange (rooms : gmap string Room)
    (roomId direction : option string) (playerEoa : string)
    : DirectionResult * gmap string Room :=
  match roomId ≫= (rooms !!.) with
  | None => (DirectionFailed "Room not found", rooms)
  | Some room =>
      if bool_decide (playerEoa ∈ participants room) then
        match gameState room, direction ≫= parseDirection with
        | Some gs, Some d =>
            if Engine.isGameOver gs then (DirectionAccepted, rooms)
            else (DirectionAccepted,
                  <[id room := setGameState room (Engine.changeDirection gs playerEoa d)]> rooms)
        | _, _ => (DirectionAccepted, rooms)
        end
      else (DirectionFailed "Player not in room", rooms)
  end.

Definition specUpdateGameState (rooms : gmap string Room) (r : Engine.Rng)
    (roomId : string) : UpdateResult * gmap string Room * Engine.Rng :=
  match rooms !! roomId with
  | None => (UpdateFailed "Room not found", rooms, r)
  | Some room =>
      match gameState room with
      | None => (UpdateFailed "Game not started", rooms, r)
      | Some gs =>
          let '(gs', r') := Engine.updateGame gs r in
          (Updated gs' (Engine.isGameOver gs'),
           <[roomId := setGameState room gs']> rooms, r')
      end
  end.

Definition specRoomManager : RoomManager :=
  {| updateGameState := specUpdateGameState;
     processDirectionChange := specProcessDirectionChange;
     closeRoomOf := closeRoom |}.

End Rooms.

(** ** Settlement of an app session ([nitrolite/]) *)

Module Settlement.

Inductive Completion := Returned | Thrown.

(** How the promise [closeAppSession] returns settles.  Of a rejection the
    handlers only ever read a property of the reason, which works on any
    value but [null] and [undefined]. *)
Inductive Reason := ErrorValue | Nullish.

Inductive Settled := Resolved | Rejected (reason : Reason).

(** The [gameData] object [handleGameOverAppSession] hands to
    [closeAppSession]. *)
Record GameData := {
  endCondition : string;
  finalScores : Engine.PerPlayer Z;
  gameTime : Z
}.

(** The app-session functions the game handlers import from
    [nitrolite/appSessions.js]; their modules are not part of the sources,
    so the handlers are stated over any implementation.  Each call may
    throw and may change the session storage. *)
Class AppSessions := {
  SessionStore : Type;
  hasAppSession : SessionStore -> string -> bool;
  closeAppSession :
    SessionStore -> string -> option string -> GameData ->
    Settled * SessionStore;
  addMoveToSession :
    SessionStore -> option string -> string -> option string ->
    Completion * SessionStore
}.

Record Allocation := { participant : string; asset : string; amount : Q }.

(** What each participant holds when the session opens. *)
Definition openAllocations (hostEOA guestEOA : string) (bet : Q) : list Allocation :=
  [ {| participant := hostEOA; asset := "usdc"; amount := bet |};
    {| participant := guestEOA; asset := "usdc"; amount := bet |} ].

(** Modelled from the spec: [session-close.js] is not part of the sources.
    The close allocation is the one of the Session Coordinator: the full
    pot to the sole survivor, each stake returned on a tie (no winner). *)
Definition closeAllocations (hostEOA guestEOA : string) (bet : Q)
    (winnerEOA : option string) : list Allocation :=
  match winnerEOA with
  | None => openAllocations hostEOA guestEOA bet
  | Some w =>
      if decide (w = hostEOA) then
        [ {| participant := hostEOA; asset := "usdc"; amount := 2 * bet |};
          {| participant := guestEOA; asset := "usdc"; amount := 0 |} ]
      else
        [ {| participant := hostEOA; asset := "usdc"; amount := 0 |};
          {| participant := guestEOA; asset := "usdc"; amount := 2 * bet |} ]
  end%Q.

(** Modelled from the spec: a session store with the phases of the
    SettlementSession that matter after the handshake, and a Settlement
    Service that is either reachable or not. *)
Inductive Phase := active | closed | aborted.

Record Session := {
  phase : Phase;
  sessionHost : string;
  sessionGuest : string;
  stake : Q;
  finalAllocation : option (list Allocation);
  moves : list (string * option string)
}.

Record Store := {
  sessions : gmap string Session;
  serviceUp : bool
}.

Definition specCloseAppSession (st : Store) (roomId : string)
    (winnerEOA : option string) (gd : GameData) : Settled * Store :=
  match sessions st !! roomId with
  | None => (Rejected ErrorValue, st)
  | Some s =>
      match phase s with
      | active =>
          if serviceUp st then
            (Resolved,
             {| sessions :=
                  <[roomId := {| phase := closed;
                                 sessionHost := sessionHost s;
                                 sessionGuest := sessionGuest s;
                                 stake := stake s;
                                 finalAllocation :=
                                   Some (closeAllocations (sessionHost s) (sessionGuest s)
                                           (stake s) winnerEOA);
                                 moves := moves s |}]> (sessions st);
                serviceUp := serviceUp st |})
          else (Rejected ErrorValue, st)
      | closed | aborted => (Resolved, st)
      end
  end.

Definition specAddMoveToSession (st : Store) (roomId : option string)
    (playerEoa : string) (direction : option string) : Completion * Store :=
  match roomId ≫= (sessions st !!.) with
  | None => (Thrown, st)
  | Some s =>
      (Returned,
       {| sessions :=
            <[default "" roomId :=
                {| phase := phase s; sessionHost := sessionHost s;
                   sessionGuest := sessionGuest s; stake := stake s;
                   finalAllocation := finalAllocation s;
                   moves := moves s ++ [(playerEoa, direction)] |}]> (sessions st);
          serviceUp := serviceUp st |})
  end.

Definition specAppSessions : AppSessions :=
  {| SessionStore := Store;
     hasAppSession := fun st roomId => bool_decide (is_Some (sessions st !! roomId));
     closeAppSession := specCloseAppSession;
     addMoveToSession := specAddMoveToSession |}.

End Settlement.

(** ** The game handlers ([websocket/handlers/game.js]) *)

Module Handlers.
Import Settlement.
Import Rooms.

(** A WebSocket, known only by identity ([connection.ws === ws]). *)
Definition Ws := nat.

(** Message payloads; the formatting functions are kept symbolic. *)
Inductive Payload :=
| StartedPayload (roomId : string)
| GameStatePayload (gs : Engine.GameState) (roomId : string) (bet : Q)
| GameOverPayload (gs : Engine.GameState).

(** What the handlers send: [sendError(ws, code, message)] and
    [roomManager.broadcastToRoom(roomId, type, payload)]. *)
Inductive Output :=
| ErrorSent (ws : Ws) (code message : string)
| Broadcast (roomId type : string) (payload : Payload).

(** The callback a [setInterval] handle runs, with the room id its closure
    captured. *)
Inductive Loop :=
| GameLoop (roomId : string)
| GameOverDetectionLoop (roomId : string).

Record StartPayload := { roomId : option string }.

Record DirectionPayload := {
  directionRoomId : option string;
  direction : option string
}.

Inductive Validation := Valid | Invalid (error : string).

(** [validateDirectionPayload] of [utils/validators.js], which is not part
    of the sources. *)
Class Validators := {
  validateDirectionPayload : option DirectionPayload -> Validation
}.

(** JavaScript truthiness of a value that is a string, [null] or
    [undefined]. *)
Definition truthy (v : option string) : bool :=
  match v with
  | Some s => negb (String.eqb s "")
  | None => false
  end.

(** The loop over [connections.entries()] that finds the caller. *)
Definition findPlayer (conns : list (string * Ws)) (ws : Ws) : option string :=
  fst <$> List.find (fun c => bool_decide (snd c = ws)) conns.

Section WithCollaborators.
Context `{Engine.Ethers} `{AppSessions} `{RoomManager} `{Validators}.

(** The mutable state the handlers touch: the room manager's map, the
    connection table, the module-level [gameLoops] map, the timers of the
    event loop, the session storage, the random source, and three traces
    (the messages sent, the [closeAppSession] calls made, and the rooms
    whose game-over promise rejected with nobody awaiting it). *)
Record Server := {
  rooms : gmap string Room;
  connections : list (string * Ws);
  gameLoops : gmap string nat;
  intervals : gmap nat Loop;
  timeouts : list (Z * string);
  nextHandle : nat;
  store : SessionStore;
  rng : Engine.Rng;
  outbox : list Output;
  closeCalls : list (string * option string * GameData);
  unhandledRejections : list string
}.

Definition setRooms (v : gmap string Room) (s : Server) : Server :=
  {| rooms := v; connections := connections s; gameLoops := gameLoops s;
     intervals := intervals s; timeouts := timeouts s; nextHandle := nextHandle s;
     store := store s; rng := rng s; outbox := outbox s; closeCalls := closeCalls s;
     unhandledRejections := unhandledRejections s |}.

Definition setGameLoops (v : gmap string nat) (s : Server) : Server :=
  {| rooms := rooms s; connections := connections s; gameLoops := v;
     intervals := intervals s; timeouts := timeouts s; nextHandle := nextHandle s;
     store := store s; rng := rng s; outbox := outbox s; closeCalls := closeCalls s;
     unhandledRejections := unhandledRejections s |}.

Definition setIntervals (v : gmap nat Loop) (s : Server) : Server :=
  {| rooms := rooms s; connections := connections s; gameLoops := gameLoops s;
     intervals := v; timeouts := timeouts s; nextHandle := nextHandle s;
     store := store s; rng := rng s; outbox := outbox s; closeCalls := closeCalls s;
     unhandledRejections := unhandledRejections s |}.

Definition setTimeouts (v : list (Z * string)) (s : Server) : Server :=
  {| rooms := rooms s; connections := connections s; gameLoops := gameLoops s;
     intervals := intervals s; timeouts := v; nextHandle := nextHandle s;
     store := store s; rng := rng s; outbox := outbox s; closeCalls := closeCalls s;
     unhandledRejections := unhandledRejections s |}.

Definition setNextHandle (v : nat) (s : Server) : Server :=
  {| rooms := rooms s; connections := connections s; gameLoops := gameLoops s;
     intervals := intervals s; timeouts := timeouts s; nextHandle := v;
     store := store s; rng := rng s; outbox := outbox s; closeCalls := closeCalls s;
     unhandledRejections := unhandledRejections s |}.

Definition setStore (v : SessionStore) (s : Server) : Server :=
  {| rooms := rooms s; connections := connections s; gameLoops := gameLoops s;
     intervals := intervals s; timeouts := timeouts s; nextHandle := nextHandle s;
     store := v; rng := rng s; outbox := outbox s; closeCalls := closeCalls s;
     unhandledRejections := unhandledRejections s |}.

Definition setRng (v : Engine.Rng) (s : Server) : Server :=
  {| rooms := rooms s; connections := connections s; gameLoops := gameLoops s;
     intervals := intervals s; timeouts := timeouts s; nextHandle := nextHandle s;
     store := store s; rng := v; outbox := outbox s; closeCalls := closeCalls s;
     unhandledRejections := unhandledRejections s |}.

Definition setOutbox (v : list Output) (s : Server) : Server :=
  {| rooms := rooms s; connections := connections s; gameLoops := gameLoops s;
     intervals := intervals s; timeouts := timeouts s; nextHandle := nextHandle s;
     store := store s; rng := rng s; outbox := v; closeCalls := closeCalls s;
     unhandledRejections := unhandledRejections s |}.

Definition setCloseCalls (v : list (string * option string * GameData))
    (s : Server) : Server :=
  {| rooms := rooms s; connections := connections s; gameLoops := gameLoops s;
     intervals := intervals s; timeouts := timeouts s; nextHandle := nextHandle s;
     store := store s; rng := rng s; outbox := outbox s; closeCalls := v;
     unhandledRejections := unhandledRejections s |}.

Definition setUnhandledRejections (v : list string) (s : Server) : Server :=
  {| rooms := rooms s; connections := connections s; gameLoops := gameLoops s;
     intervals := intervals s; timeouts := timeouts s; nextHandle := nextHandle s;
     store := store s; rng := rng s; outbox := outbox s; closeCalls := closeCalls s;
     unhandledRejections := v |}.

Definition sendError (ws : Ws) (code message : string) (s : Server) : Server :=
  setOutbox (outbox s ++ [ErrorSent ws code message]) s.

Definition broadcastToRoom (roomId type : string) (payload : Payload)
    (s : Server) : Server :=
  setOutbox (outbox s ++ [Broadcast roomId type payload]) s.

Definition clearInterval (h : nat) (s : Server) : Server :=
  setIntervals (delete h (intervals s)) s.

Definition setInterval (loop : Loop) (s : Server) : nat * Server :=
  let h := nextHandle s in
  (h, setNextHandle (S h) (setIntervals (<[h := loop]> (intervals s)) s)).

(** [setTimeout(() => roomManager.closeRoom(roomId), delay)]. *)
Definition setTimeout (delay : Z) (roomId : string) (s : Server) : Server :=
  setTimeouts (timeouts s ++ [(delay, roomId)]) s.

(** The winner's address, as [handleGameOverAppSession] determines it. *)
Definition winnerEOAOf (room : Room) (gs : Engine.GameState) : option string :=
  if decide (Engine.winner gs = Some "player1") then host (players room)
  else if decide (Engine.winner gs = Some "player2") then guest (players room)
  else None.

Definition gameDataOf (gs : Engine.GameState) : GameData :=
  {| endCondition := if truthy (Engine.winner gs) then "collision" else "tie";
     finalScores :=
       {| Engine.player1 := Engine.score (Engine.player1 (Engine.snakes gs));
          Engine.player2 := Engine.score (Engine.player2 (Engine.snakes gs)) |};
     gameTime := Engine.gameTime gs |}.

(** [await closeAppSession(roomId, winnerEOA, gameData)]: the call is
    recorded in the trace and its effect on the session storage applied at
    the point of call. *)
Definition callCloseAppSession (roomId : string) (winnerEOA : option string)
    (gd : GameData) (s : Server) : Settled * Server :=
  let '(c, st') := closeAppSession (store s) roomId winnerEOA gd in
  (c, setStore st' (setCloseCalls (closeCalls s ++ [(roomId, winnerEOA, gd)]) s)).

(** The [catch] of [handleGameOverAppSession]: it logs the error and then
    [error.stack]; reading [stack] of [null] or [undefined] throws, out of
    the [catch]. *)
Definition logCloseFailure (reason : Reason) : Completion :=
  match reason with
  | ErrorValue => Returned
  | Nullish => Thrown
  end.

(** [handleGameOverAppSession].  The body is one [try] block; the result is
    how the promise of the async function settles. *)
Definition handleGameOverAppSession (roomId : string) (gs : Engine.GameState)
    (s : Server) : Completion * Server :=
  match rooms s !! roomId with
  | None => (Returned, s)
  | Some room =>
      let winnerEOA := winnerEOAOf room gs in
      let gameData := gameDataOf gs in
      if truthy (appId room) then
        match callCloseAppSession roomId winnerEOA gameData s with
        | (Resolved, s') => (Returned, s')
        | (Rejected reason, s') => (logCloseFailure reason, s')
        end
      else if hasAppSession (store s) roomId then
        match callCloseAppSession roomId winnerEOA gameData s with
        | (Resolved, s') => (Returned, s')
        | (Rejected reason, s') => (logCloseFailure reason, s')
        end
      else (Returned, s)
  end.

(** A call of [handleGameOverAppSession] whose promise nobody awaits: when
    it rejects there is no handler, which the trace records. *)
Definition unawaited (roomId : string) (p : Completion * Server) : Server :=
  match p with
  | (Returned, s) => s
  | (Thrown, s) => setUnhandledRejections (unhandledRejections s ++ [roomId]) s
  end.

(** [startGameLoop]: an existing loop of the room is cleared, a new
    interval (150 ms) is installed and registered under the room id. *)
Definition startGameLoop (roomId : string) (s : Server) : Server :=
  let s1 :=
    match gameLoops s !! roomId with
    | Some h => clearInterval h s
    | None => s
    end in
  let '(interval, s2) := setInterval (GameLoop roomId) s1 in
  setGameLoops (<[roomId := interval]> (gameLoops s2)) s2.

(** The callback of the interval [startGameLoop] installs. *)
Definition gameLoopTick (interval : nat) (roomId : string) (s : Server) : Server :=
  let '(result, rooms', rng') := updateGameState (rooms s) (rng s) roomId in
  let s1 := setRng rng' (setRooms rooms' s) in
  match result with
  | UpdateFailed _ =>
      setGameLoops (delete roomId (gameLoops s1)) (clearInterval interval s1)
  | Updated gs over =>
      let bet :=
        match rooms s1 !! roomId with
        | Some currentRoom => betAmount currentRoom
        | None => 0%Q
        end in
      let s2 := broadcastToRoom roomId "game:update" (GameStatePayload gs roomId bet) s1 in
      if over then
        let s3 := clearInterval interval s2 in
        let s4 := setGameLoops (delete roomId (gameLoops s3)) s3 in
        let s5 := broadcastToRoom roomId "game:over" (GameOverPayload gs) s4 in
        let s6 := unawaited roomId (handleGameOverAppSession roomId gs s5) in
        setTimeout 5000 roomId s6
      else s2
  end.

(** [startGameOverDetectionLoop] and the callback of its interval
    (1000 ms), which only watches for the game-over flag. *)
Definition startGameOverDetectionLoop (roomId : string) (s : Server) : Server :=
  let s1 :=
    match gameLoops s !! roomId with
    | Some h => clearInterval h s
    | None => s
    end in
  let '(interval, s2) := setInterval (GameOverDetectionLoop roomId) s1 in
  setGameLoops (<[roomId := interval]> (gameLoops s2)) s2.

Definition detectionTick (interval : nat) (roomId : string) (s : Server) : Server :=
  match rooms s !! roomId ≫= gameState with
  | None => setGameLoops (delete roomId (gameLoops s)) (clearInterval interval s)
  | Some gs =>
      if Engine.isGameOver gs then
        let s3 := clearInterval interval s in
        let s4 := setGameLoops (delete roomId (gameLoops s3)) s3 in
        let s5 := broadcastToRoom roomId "game:over" (GameOverPayload gs) s4 in
        let s6 := unawaited roomId (handleGameOverAppSession roomId gs s5) in
        setTimeout 5000 roomId s6
      else s
  end.

(** The event loop: a live interval fires its callback, a cleared one
    never does; the oldest pending timeout retires its room. *)
Definition fireInterval (h : nat) (s : Server) : Server :=
  match intervals s !! h with
  | Some (GameLoop roomId) => gameLoopTick h roomId s
  | Some (GameOverDetectionLoop roomId) => detectionTick h roomId s
  | None => s
  end.

Definition fireTimeout (s : Server) : Server :=
  match timeouts s with
  | [] => s
  | (_, roomId) :: rest => setRooms (closeRoomOf (rooms s) roomId) (setTimeouts rest s)
  end.

(** [handleStartGame].  [createGame] may throw on a malformed address, in
    which case the async handler rejects before anything was written. *)
Definition handleStartGame (ws : Ws) (payload : option StartPayload)
    (s : Server) : Completion * Server :=
  match payload with
  | None => (Returned, sendError ws "INVALID_PAYLOAD" "Invalid payload format" s)
  | Some p =>
    if negb (truthy (roomId p)) then
      (Returned, sendError ws "INVALID_PAYLOAD" "Room ID is required" s)
    else
      let rid := default "" (roomId p) in
      let playerEoa := findPlayer (connections s) ws in
      if negb (truthy playerEoa) then
        (Returned, sendError ws "NOT_AUTHENTICATED" "Player not authenticated" s)
      else
        match rooms s !! rid with
        | None => (Returned, sendError ws "ROOM_NOT_FOUND" "Room not found" s)
        | Some room =>
          if negb (bool_decide (host (players room) = playerEoa)) then
            (Returned,
             sendError ws "NOT_AUTHORIZED" "Only the host can start the game" s)
          else if negb (truthy (host (players room)))
                  || negb (truthy (guest (players room))) then
            (Returned,
             sendError ws "ROOM_NOT_FULL"
               "Room must have two players to start the game" s)
          else
            let created :=
              match gameState room with
              | Some gs => Some (gs, s)
              | None =>
                  match Engine.createGame (default "" (host (players room)))
                          (default "" (guest (players room))) (rng s) with
                  | None => None
                  | Some (gs, rng') =>
                      Some (gs, setRng rng'
                                  (setRooms (<[rid := setGameState room gs]> (rooms s)) s))
                  end
              end in
            match created with
            | None => (Thrown, s)
            | Some (gs, s1) =>
                let s2 := broadcastToRoom rid "game:started" (StartedPayload rid) s1 in
                let s3 := startGameLoop rid s2 in
                (Returned,
                 broadcastToRoom rid "room:state"
                   (GameStatePayload gs rid (betAmount room)) s3)
            end
        end
  end.

(** [handleDirectionChange].  Destructuring a [null] payload throws; a
    failure of [addMoveToSession] is caught and only logged. *)
Definition handleDirectionChange (ws : Ws) (payload : option DirectionPayload)
    (s : Server) : Completion * Server :=
  match validateDirectionPayload payload with
  | Invalid error => (Returned, sendError ws "INVALID_PAYLOAD" error s)
  | Valid =>
    match payload with
    | None => (Thrown, s)
    | Some p =>
      let playerEoa := findPlayer (connections s) ws in
      if negb (truthy playerEoa) then
        (Returned, sendError ws "NOT_AUTHENTICATED" "Player not authenticated" s)
      else
        let eoa := default "" playerEoa in
        let '(result, rooms') :=
          processDirectionChange (rooms s) (directionRoomId p) (direction p) eoa in
        let s1 := setRooms rooms' s in
        match result with
        | DirectionFailed error =>
            (Returned, sendError ws "DIRECTION_CHANGE_FAILED" error s1)
        | DirectionAccepted =>
            match addMoveToSession (store s1) (directionRoomId p) eoa (direction p) with
            | (Returned, st') => (Returned, setStore st' s1)
            | (Thrown, st') => (Returned, setStore st' s1)
            end
        end
    end
  end.

(** A room is being played when a loop is registered for it; its session
    is open when the room carries an app id or the storage holds one. *)
Definition loopRunning (s : Server) (roomId : string) : Prop :=
  exists h, gameLoops s !! roomId = Some h /\ intervals s !! h = Some (GameLoop roomId).

Definition sessionOpen (s : Server) (roomId : string) : Prop :=
  (exists room, rooms s !! roomId = Some room /\ truthy (appId room) = true)
  \/ hasAppSession (store s) roomId = true.

End WithCollaborators.

End Handlers.

(** ** A concrete match, for running the model *)

Module Scenario.
Import Settlement.
Import Rooms.
Import Handlers.

(** A stand-in for [ethers.getAddress]: a string of 42 characters that
    starts with [0x] is taken as a checksummed address, anything else
    throws. *)
Definition plainEthers : Engine.Ethers :=
  {| Engine.getAddress := fun a =>
       if String.prefix "0x" a && (String.length a =? 42)%nat then Some a else None |}.

(** Modelled from the spec: [validateDirectionPayload] as the utilities
    README documents it (an object whose direction is one of the four
    headings). *)
Definition specValidators : Validators :=
  {| validateDirectionPayload := fun payload =>
       match payload with
       | None => Invalid "Invalid payload format"
       | Some p =>
           match direction p ≫= parseDirection with
           | Some _ => Valid
           | None => Invalid "Invalid direction"
           end
       end |}.

#[local] Existing Instance plainEthers.
#[local] Existing Instance specAppSessions.
#[local] Existing Instance specRoomManager.
#[local] Existing Instance specValidators.

Definition hostA : string := "0x1111111111111111111111111111111111111111".
Definition guestB : string := "0x2222222222222222222222222222222222222222".
Definition roomOne : string := "room-1".

Definition rng0 : Engine.Rng := fun n => n.

(** The state [createGame hostA guestB rng0] returns. *)
Definition game0 : Engine.GameState :=
  {| Engine.snakes :=
       {| Engine.player1 := Engine.createInitialSnake 3 3 Engine.RIGHT;
          Engine.player2 := Engine.createInitialSnake 16 16 Engine.LEFT |};
     Engine.food := [ {| Engine.x := 0; Engine.y := 1 |};
                      {| Engine.x := 2; Engine.y := 3 |};
                      {| Engine.x := 4; Engine.y := 5 |} ];
     Engine.winner := None;
     Engine.isGameOver := false;
     Engine.players := {| Engine.player1 := hostA; Engine.player2 := guestB |};
     Engine.gameTime := 0 |}.

(** The host has queued a U-turn: the next tick runs player1 into its own
    neck. *)
Definition gameBeforeCrash : Engine.GameState :=
  Engine.changeDirection game0 hostA Engine.LEFT.

(** The state one tick later: player1 is dead, player2 has won. *)
Definition gameAfterCrash : Engine.GameState :=
  fst (Engine.updateGame gameBeforeCrash rng0).

Definition waitingRoom : Room :=
  {| id := roomOne;
     players := {| host := Some hostA; guest := None |};
     betAmount := 1 # 10;
     gameState := None;
     isReady := false;
     appId := None;
     createdAt := 0 |}.

Definition readyRoom : Room := addGuest waitingRoom guestB.

Definition withAppId (room : Room) (a : string) : Room :=
  {| id := id room; players := players room; betAmount := betAmount room;
     gameState := gameState room; isReady := isReady room;
     appId := Some a; createdAt := createdAt room |}.

Definition activeSession : Session :=
  {| phase := active; sessionHost := hostA; sessionGuest := guestB;
     stake := 1 # 10; finalAllocation := None; moves := [] |}.

(** A ready room, both players connected, no app session anywhere. *)
Definition readyServer : Server :=
  {| rooms := {[ roomOne := readyRoom ]};
     connections := [(hostA, 1%nat); (guestB, 2%nat)];
     gameLoops := ∅;
     intervals := ∅;
     timeouts := [];
     nextHandle := 0;
     store := {| sessions := ∅; serviceUp := true |};
     rng := rng0;
     outbox := [];
     closeCalls := [];
     unhandledRejections := [] |}.

(** A match in progress in a room that carries an app id; [stored] is the
    session storage and [up] tells whether the Settlement Service can be
    reached. *)
Definition playingServer (gs : Engine.GameState) (stored : gmap string Session)
    (up : bool) : Server :=
  {| rooms := {[ roomOne := withAppId (setGameState readyRoom gs) "0xapp" ]};
     connections := [(hostA, 1%nat); (guestB, 2%nat)];
     gameLoops := {[ roomOne := 0%nat ]};
     intervals := {[ 0%nat := GameLoop roomOne ]};
     timeouts := [];
     nextHandle := 1;
     store := {| sessions := stored; serviceUp := up |};
     rng := rng0;
     outbox := [];
     closeCalls := [];
     unhandledRejections := [] |}.

(** The host's start-game payload and a U-turn request for the room. *)
Definition hostPayload : StartPayload := {| roomId := Some roomOne |}.

Definition uTurn : DirectionPayload :=
  {| directionRoomId := Some roomOne; direction := Some "LEFT" |}.

(** The match one tick before player1 crashes, on an active session. *)
Definition crashingServer (up : bool) : Server :=
  playingServer gameBeforeCrash {[ roomOne := activeSession ]} up.

(** The same room once the match has ended. *)
Definition finishedServer (up : bool) : Server :=
  playingServer gameAfterCrash {[ roomOne := activeSession ]} up.

End Scenario.

(** ** The server's events, one at a time *)

Module Events.
Import Settlement.
Import Rooms.
Import Handlers.

(** The room whose id the closure of an interval callback captured. *)
Definition loopRoom (l : Loop) : string :=
  match l with
  | GameLoop roomId => roomId
  | GameOverDetectionLoop roomId => roomId
  end.

(** What can happen to the server: a client message reaches one of the two
    handlers, some caller starts a game-over detection loop, a live
    interval fires, or the oldest timeout fires. *)
Inductive Event :=
| StartGameMessage (ws : Ws) (payload : option StartPayload)
| DirectionMessage (ws : Ws) (payload : option DirectionPayload)
| DetectionStarted (roomId : string)
| IntervalFires (h : nat)
| TimeoutFires.

Section WithCollaborators.
Context `{Engine.Ethers} `{AppSessions} `{RoomManager} `{Validators}.

Definition handle (e : Event) (s : Server) : Server :=
  match e with
  | StartGameMessage ws payload => snd (handleStartGame ws payload s)
  | DirectionMessage ws payload => snd (handleDirectionChange ws payload s)
  | DetectionStarted roomId => startGameOverDetectionLoop roomId s
  | IntervalFires h => fireInterval h s
  | TimeoutFires => fireTimeout s
  end.

Definition run (es : list Event) (s : Server) : Server :=
  foldl (fun acc e => handle e acc) s es.

(** Every live interval was handed out by [setInterval] and is the one
    [gameLoops] registers for its room, and every handle [gameLoops]
    registers for a room is a live interval of that room. *)
Definition loopsConsistent (s : Server) : Prop :=
  (forall h l, intervals s !! h = Some l ->
     (h < nextHandle s)%nat /\ gameLoops s !! loopRoom l = Some h)
  /\ (forall roomId h, gameLoops s !! roomId = Some h ->
        exists l, intervals s !! h = Some l /\ loopRoom l = roomId).

(** All of the server state but the messages sent. *)
Definition sameButOutbox (s s' : Server) : Prop :=
  rooms s' = rooms s /\ connections s' = connections s
  /\ gameLoops s' = gameLoops s /\ intervals s' = intervals s
  /\ timeouts s' = timeouts s /\ nextHandle s' = nextHandle s
  /\ store s' = store s /\ rng s' = rng s /\ closeCalls s' = closeCalls s
  /\ unhandledRejections s' = unhandledRejections s.

(** The live intervals once a loop of the given kind has been started:
    the room's registered handle is cleared, the fresh one installed. *)
Definition intervalsAfterStart (loop : Loop) (s : Server) : gmap nat Loop :=
  <[nextHandle s := loop]>
    (match gameLoops s !! loopRoom loop with
     | Some h0 => delete h0 (intervals s)
     | None => intervals s
     end).

(** The state [handleStartGame] reaches when it starts the match of room
    [rid] from the state [s1] that holds the game state [gs]. *)
Definition started (rid : string) (room : Room) (gs : Engine.GameState)
    (s1 : Server) : Server :=
  broadcastToRoom rid "room:state" (GameStatePayload gs rid (betAmount room))
    (startGameLoop rid
       (broadcastToRoom rid "game:started" (StartedPayload rid) s1)).

End WithCollaborators.

End Events.

(** ** The client's signing hook ([hooks/useAppSessionSignature.ts]) *)

Module Client.

(** The two message types [signAppSessionMessage] accepts. *)
Inductive MessageType := SignatureType | StartGameType.

Definition messageTypeName (t : MessageType) : string :=
  match t with
  | SignatureType => "appSession:signature"
  | StartGameType => "appSession:startGame"
  end.

(** A thrown JavaScript value: an [Error] with its message, or anything
    else. *)
Inductive Exception := ErrorObject (message : string) | OtherValue.

(** The [keyPair] of the WebSocket context. *)
Record KeyPair := { privateKey : option string }.

(** The two [useState] cells of the hook and the trace of the calls made to
    the two optional callbacks. *)
Inductive Sent :=
| ViaSendSignature (roomId signature : string)
| ViaSendStartGame (roomId signature : string).

Record Hook := {
  isSigningInProgress : bool;
  signatureError : option string;
  sent : list Sent
}.

(** The optional callbacks [sendSignature] and [sendStartGame]; a call
    returns or throws. *)
Record Callbacks := {
  sendSignature : option (string -> string -> option Exception);
  sendStartGame : option (string -> string -> option Exception)
}.

Section WithSigner.
(** [requestToSign] is forwarded as it is; [createECDSAMessageSigner] and
    the signer it returns belong to the Nitrolite library and may throw. *)
Context {Request : Type}.
Context (signWith : string -> Request -> Exception + string).

Definition privateKeyOf (keyPair : option KeyPair) : option string :=
  match keyPair ≫= privateKey with
  | Some k => if String.eqb k "" then None else Some k
  | None => None
  end.

(** The [try] block of [signAppSessionMessage]. *)
Definition signAndSend (key : string) (cb : Callbacks) (roomId : string)
    (requestToSign : Request) (t : MessageType) (h : Hook)
    : (Exception + string) * Hook :=
  match signWith key requestToSign with
  | inl e => (inl e, h)
  | inr signature =>
      let finish (log : Sent) (thrown : option Exception) :=
        let h1 := {| isSigningInProgress := isSigningInProgress h;
                     signatureError := signatureError h;
                     sent := sent h ++ [log] |} in
        match thrown with
        | Some e => (inl e, h1)
        | None =>
            (inr signature,
             {| isSigningInProgress := false;
                signatureError := signatureError h1;
                sent := sent h1 |})
        end in
      match t, sendSignature cb, sendStartGame cb with
      | SignatureType, Some f, _ =>
          finish (ViaSendSignature roomId signature) (f roomId signature)
      | StartGameType, _, Some g =>
          finish (ViaSendStartGame roomId signature) (g roomId signature)
      | _, _, _ =>
          (inl (ErrorObject
                  (String.append "No send function for message type: "
                     (messageTypeName t))), h)
      end
  end.

(** [signAppSessionMessage]: without a private key it throws before
    touching the state; otherwise the [catch] records the message of the
    error, clears the progress flag and rethrows. *)
Definition signAppSessionMessage (keyPair : option KeyPair) (cb : Callbacks)
    (roomId : string) (requestToSign : Request) (t : MessageType) (h : Hook)
    : (Exception + string) * Hook :=
  match privateKeyOf keyPair with
  | None => (inl (ErrorObject "No private key available for signing"), h)
  | Some key =>
      let h0 := {| isSigningInProgress := true;
                   signatureError := None;
                   sent := sent h |} in
      match signAndSend key cb roomId requestToSign t h0 with
      | (inr signature, h1) => (inr signature, h1)
      | (inl error, h1) =>
          let errorMessage :=
            match error with
            | ErrorObject message => message
            | OtherValue => "Unknown signing error"
            end in
          (inl error,
           {| isSigningInProgress := false;
              signatureError := Some errorMessage;
              sent := sent h1 |})
      end
  end.

(** The message objects carry the room id and the exact array to sign. *)
Record SignatureRequest := {
  roomId : string;
  requestToSign : Request
}.

(** [handleParticipantBSignature] (the guest, when joining) and
    [handleParticipantASignature] (the host, when starting): the error is
    logged and rethrown, the signature is dropped. *)
Definition handleParticipantBSignature (keyPair : option KeyPair) (cb : Callbacks)
    (message : SignatureRequest) (h : Hook) : option Exception * Hook :=
  match signAppSessionMessage keyPair cb (roomId message) (requestToSign message)
          SignatureType h with
  | (inr _, h1) => (None, h1)
  | (inl error, h1) => (Some error, h1)
  end.

Definition handleParticipantASignature (keyPair : option KeyPair) (cb : Callbacks)
    (message : SignatureRequest) (h : Hook) : option Exception * Hook :=
  match signAppSessionMessage keyPair cb (roomId message) (requestToSign message)
          StartGameType h with
  | (inr _, h1) => (None, h1)
  | (inl error, h1) => (Some error, h1)
  end.

End WithSigner.

(** A stand-in for the Nitrolite signer, for running the hook: the request
    is a string and its signature the key followed by the request; the key
    [0xbad] is refused with an [Error]. *)
Definition demoSigner (key request : string) : Exception + string :=
  if String.eqb key "0xbad" then inl (ErrorObject "invalid private key")
  else inr (String.append key request).

(** Callbacks that record the call and return. *)
Definition bothCallbacks : Callbacks :=
  {| sendSignature := Some (fun _ _ => None);
     sendStartGame := Some (fun _ _ => None) |}.

Definition idleHook : Hook :=
  {| isSigningInProgress := false; signatureError := None; sent := [] |}.

End Client.

(** * Properties *)

(** ** Facts about the game module *)

Module EngineFacts.
Import Engine.

Lemma pushSegments_length n i sx sy d acc :
  length (pushSegments n i sx sy d acc) = (length acc + n)%nat.
Proof.
  revert i acc. induction n as [|n IH]; intros i acc; simpl.
  - lia.
  - rewrite IH, length_app. simpl. lia.
Qed.

Lemma pushSegments_prefix n i sx sy d acc k :
  (k < length acc)%nat ->
  pushSegments n i sx sy d acc !! k = acc !! k.
Proof.
  revert i acc. induction n as [|n IH]; intros i acc Hk; simpl; [done|].
  rewrite IH by (rewrite length_app; simpl; lia).
  by apply lookup_app_l.
Qed.

Lemma pushSegments_lookup n i sx sy d acc k :
  (k < n)%nat ->
  pushSegments n i sx sy d acc !! (length acc + k)%nat
  = Some (segment sx sy d (i + Z.of_nat k)).
Proof.
  revert i acc k. induction n as [|n IH]; intros i acc k Hk; [lia|].
  simpl. destruct k as [|k].
  - rewrite pushSegments_prefix by (rewrite length_app; simpl; lia).
    rewrite Nat.add_0_r, Z.add_0_r.
    rewrite lookup_app_r by lia. by rewrite Nat.sub_diag.
  - specialize (IH (i + 1) (acc ++ [segment sx sy d i]) k ltac:(lia)).
    rewrite length_app in IH. simpl in IH.
    replace (length acc + S k)%nat with (length acc + 1 + k)%nat by lia.
    rewrite IH. f_equal. f_equal. lia.
Qed.

Lemma segment_behind sx sy d i :
  segment sx sy d i = behind {| x := sx; y := sy |} d i.
Proof. destruct d; unfold segment, behind; simpl; f_equal; lia. Qed.

Lemma createInitialSnake_body sx sy d (k : nat) :
  (Z.of_nat k < INITIAL_SNAKE_LENGTH) ->
  body (createInitialSnake sx sy d) !! k = Some (behind {| x := sx; y := sy |} d (Z.of_nat k)).
Proof.
  intros Hk. unfold createInitialSnake; cbn [body].
  rewrite <- segment_behind.
  pose proof (pushSegments_lookup (Z.to_nat INITIAL_SNAKE_LENGTH) 0 sx sy d [] k) as Hl.
  cbn [length Nat.add] in Hl. rewrite Z.add_0_l in Hl. apply Hl. lia.
Qed.

Lemma createInitialSnake_length sx sy d :
  Z.of_nat (length (body (createInitialSnake sx sy d))) = INITIAL_SNAKE_LENGTH.
Proof.
  unfold createInitialSnake; cbn [body]. rewrite pushSegments_length.
  unfold INITIAL_SNAKE_LENGTH. simpl. lia.
Qed.

Lemma createInitialSnake_fresh sx sy d :
  freshSnake (createInitialSnake sx sy d) {| x := sx; y := sy |} d.
Proof.
  unfold freshSnake. split_and!; [done | done | done | | done | | ].
  - apply createInitialSnake_length.
  - unfold headOf. rewrite head_lookup.
    rewrite (createInitialSnake_body sx sy d 0) by done.
    unfold behind; simpl. do 2 f_equal; lia.
  - intros k Hk. by apply createInitialSnake_body.
Qed.

(** C9.  For two distinct valid addresses [createGame] returns a state
    with two snakes, each alive with score 0 and [INITIAL_SNAKE_LENGTH] = 3
    contiguous cells laid out behind its head against its heading; player1
    heads RIGHT from (3,3) and player2 heads LEFT from
    ([GRID_WIDTH]-4, [GRID_HEIGHT]-4); there are exactly three food items,
    no winner, the game is not over and the game time is 0. *)
Theorem createGame_initial_state `{Ethers} (hostEoa guestEoa : string) (r : Rng) :
  hostEoa <> guestEoa ->
  is_Some (getAddress hostEoa) ->
  is_Some (getAddress guestEoa) ->
  exists gs r',
    createGame hostEoa guestEoa r = Some (gs, r')
    /\ freshSnake (player1 (snakes gs)) {| x := 3; y := 3 |} RIGHT
    /\ freshSnake (player2 (snakes gs))
         {| x := GRID_WIDTH - 4; y := GRID_HEIGHT - 4 |} LEFT
    /\ length (food gs) = 3%nat
    /\ winner gs = None
    /\ isGameOver gs = false
    /\ gameTime gs = 0.
Proof.
  intros _ [h Hh] [g Hg]. unfold createGame. rewrite Hh, Hg.
  eexists _, _. split; [reflexivity|]. simpl.
  split; [apply createInitialSnake_fresh|].
  split; [apply createInitialSnake_fresh|]. done.
Qed.

(** *** Movement stays on the torus *)

Lemma unitVector_small d :
  -1 <= fst (unitVector d) <= 1 /\ -1 <= snd (unitVector d) <= 1.
Proof. destruct d; simpl; lia. Qed.

Lemma calculateNewHead_mod h d :
  inBounds h ->
  calculateNewHead h d
  = {| x := stepX h d `mod` GRID_WIDTH; y := stepY h d `mod` GRID_HEIGHT |}.
Proof.
  intros [Hx Hy]. pose proof (unitVector_small d) as [Hdx Hdy].
  unfold calculateNewHead, stepX, stepY. cbv zeta.
  unfold GRID_WIDTH, GRID_HEIGHT in *.
  rewrite !Z.rem_mod_nonneg by lia.
  rewrite <- (Z_mod_plus_full (x h + fst (unitVector d)) 1 20).
  rewrite <- (Z_mod_plus_full (y h + snd (unitVector d)) 1 20).
  by rewrite !Z.mul_1_l.
Qed.

Lemma calculateNewHead_inBounds h d :
  inBounds h -> inBounds (calculateNewHead h d).
Proof.
  intros Hh. rewrite calculateNewHead_mod by done.
  unfold inBounds, GRID_WIDTH, GRID_HEIGHT; simpl.
  split; apply Z.mod_pos_bound; lia.
Qed.

Lemma Forall_removelast {A} (P : A -> Prop) (l : list A) :
  Forall P l -> Forall P (removelast l).
Proof.
  induction 1 as [|a l Ha Hl IH]; simpl; [constructor|].
  destruct l; [constructor|]. by constructor.
Qed.

Lemma applyNextDirection_body s : body (applyNextDirection s) = body s.
Proof. unfold applyNextDirection. by destruct (alive s), (nextDirection s). Qed.

Lemma applyNextDirection_alive s : alive (applyNextDirection s) = alive s.
Proof.
  unfold applyNextDirection.
  destruct (alive s) eqn:Ha; [|done]. by destruct (nextDirection s).
Qed.

Lemma moveSnake_onGrid s fd :
  snakeOnGrid s -> snakeOnGrid (fst (moveSnake s fd)).
Proof.
  intros [Hne Hall]. unfold moveSnake.
  destruct (alive s); [|done].
  destruct (body s) as [|h t] eqn:Hb; [done|].
  assert (inBounds h) as Hh by (by inversion Hall).
  destruct (checkFoodCollision _ fd); simpl; split; try done.
  - constructor; [by apply calculateNewHead_inBounds|done].
  - constructor; [by apply calculateNewHead_inBounds|].
    by apply (Forall_removelast inBounds (h :: t)).
Qed.

Lemma moveSnake_alive s fd : alive (fst (moveSnake s fd)) = alive s.
Proof.
  unfold moveSnake. destruct (alive s) eqn:Ha; [|done].
  destruct (body s); [done|]. by destruct (checkFoodCollision _ fd).
Qed.

Lemma moveSnake_head s fd h :
  alive s = true -> headOf s = Some h ->
  headOf (fst (moveSnake s fd)) = Some (calculateNewHead h (direction s))
  /\ direction (fst (moveSnake s fd)) = direction s.
Proof.
  unfold headOf, moveSnake. intros -> Hh.
  destruct (body s) as [|h' t]; simplify_eq/=.
  by destruct (checkFoodCollision _ fd).
Qed.

Lemma updateGame_snakes gs r :
  let s1 := applyNextDirection (player1 (snakes gs)) in
  let s2 := applyNextDirection (player2 (snakes gs)) in
  let m1 := fst (moveSnake s1 (food gs)) in
  let m2 := fst (moveSnake s2 (snd (moveSnake s1 (food gs)))) in
  snakes (fst (updateGame gs r))
  = {| player1 := settle m1 m2; player2 := settle m2 m1 |}.
Proof.
  unfold updateGame. cbv zeta.
  destruct (moveSnake _ (food gs)) as [m1 fd1]. cbn [fst snd].
  destruct (moveSnake _ fd1) as [m2 fd2]. cbn [fst snd].
  destruct (ensureMinimumFood _ _ fd2 r) as [fd3 r'].
  by destruct (terminalResult _).
Qed.

Lemma updateGame_onGrid gs r : onGrid gs -> onGrid (fst (updateGame gs r)).
Proof.
  intros [H1 H2]. unfold onGrid. rewrite updateGame_snakes. simpl.
  split; unfold snakeOnGrid; simpl; apply moveSnake_onGrid;
    unfold snakeOnGrid; by rewrite applyNextDirection_body.
Qed.

Lemma changeDirection_onGrid gs a d : onGrid gs -> onGrid (changeDirection gs a d).
Proof.
  unfold onGrid, changeDirection. simpl. intros [H1 H2].
  repeat case_decide; simpl; done.
Qed.

Lemma createInitialSnake_onGrid sx sy d :
  2 <= sx < GRID_WIDTH - 2 -> 2 <= sy < GRID_HEIGHT - 2 ->
  snakeOnGrid (createInitialSnake sx sy d).
Proof.
  unfold GRID_WIDTH, GRID_HEIGHT. intros Hx Hy. split.
  - unfold createInitialSnake. simpl. done.
  - unfold createInitialSnake. simpl.
    do 3 (apply List.Forall_cons;
          [unfold inBounds, GRID_WIDTH, GRID_HEIGHT; destruct d; simpl; lia|]).
    apply List.Forall_nil.
Qed.

Lemma reachable_onGrid `{Ethers} gs : reachable gs -> onGrid gs.
Proof.
  induction 1 as [h g r gs r' Hc| |].
  - unfold createGame in Hc.
    destruct (getAddress h); [|done]. destruct (getAddress g); [|done].
    simplify_eq/=. split; apply createInitialSnake_onGrid;
      unfold GRID_WIDTH, GRID_HEIGHT; lia.
  - by apply changeDirection_onGrid.
  - by apply updateGame_onGrid.
Qed.

(** C5.  In every reachable match state every head lies on the grid, and a
    tick moves the head of each alive snake to the old head plus the unit
    vector of its heading, each coordinate reduced modulo the grid width
    and height, so the new head is on the grid again; moving right from the
    last column leads to column 0; and a snake alive before a tick is dead
    after it only by a collision with itself or with the other snake, there
    being no wall condition. *)
Theorem heads_wrap_around_grid `{Ethers} (gs : GameState) (r : Rng) :
  reachable gs ->
  let gs' := fst (updateGame gs r) in
  (forall slot : PerPlayer Snake -> Snake,
      slot = player1 \/ slot = player2 ->
      exists h, headOf (slot (snakes gs)) = Some h /\ inBounds h
        /\ (alive (slot (snakes gs)) = true ->
            exists h', headOf (slot (snakes gs')) = Some h'
              /\ h' = {| x := stepX h (direction (slot (snakes gs'))) `mod` GRID_WIDTH;
                         y := stepY h (direction (slot (snakes gs'))) `mod` GRID_HEIGHT |}
              /\ inBounds h')
        /\ (alive (slot (snakes gs)) = true ->
            alive (slot (snakes gs')) = false ->
            checkSelfCollision (slot (snakes gs')) = true
            \/ (checkOtherSnakeCollision (player1 (snakes gs')) (player2 (snakes gs')) = true
                /\ slot = player1)
            \/ (checkOtherSnakeCollision (player2 (snakes gs')) (player1 (snakes gs')) = true
                /\ slot = player2)))
  /\ (forall row, 0 <= row < GRID_HEIGHT ->
        calculateNewHead {| x := GRID_WIDTH - 1; y := row |} RIGHT
        = {| x := 0; y := row |}).
Proof.
  intros Hreach gs'. pose proof (reachable_onGrid gs Hreach) as [[Hn1 Ha1] [Hn2 Ha2]].
  split.
  - pose proof (updateGame_snakes gs r) as Hs. cbv zeta in Hs. fold gs' in Hs.
    intros slot [-> | ->].
    + destruct (body (player1 (snakes gs))) as [|h t] eqn:Hb; [done|].
      assert (inBounds h) as Hh by (by inversion Ha1).
      exists h. unfold headOf at 1. rewrite Hb. split_and!; [done|done| |].
      * intros Hal.
        destruct (moveSnake_head (applyNextDirection (player1 (snakes gs))) (food gs) h)
          as [Hhead Hdir].
        { by rewrite applyNextDirection_alive. }
        { unfold headOf. by rewrite applyNextDirection_body, Hb. }
        rewrite Hs. unfold headOf in *. simpl. rewrite Hhead, Hdir.
        eexists. split; [done|]. split.
        -- by apply calculateNewHead_mod.
        -- by apply calculateNewHead_inBounds.
      * rewrite Hs. simpl. rewrite andb_false_iff, negb_false_iff.
        unfold killed, checkSelfCollision, checkOtherSnakeCollision. simpl.
        intros Hal [Hd|Hk].
        -- rewrite moveSnake_alive, applyNextDirection_alive in Hd. congruence.
        -- apply orb_true_iff in Hk as [Hk|Hk]; [by left|right; left; done].
    + destruct (body (player2 (snakes gs))) as [|h t] eqn:Hb; [done|].
      assert (inBounds h) as Hh by (by inversion Ha2).
      exists h. unfold headOf at 1. rewrite Hb. split_and!; [done|done| |].
      * intros Hal.
        destruct (moveSnake_head (applyNextDirection (player2 (snakes gs)))
                    (snd (moveSnake (applyNextDirection (player1 (snakes gs))) (food gs))) h)
          as [Hhead Hdir].
        { by rewrite applyNextDirection_alive. }
        { unfold headOf. by rewrite applyNextDirection_body, Hb. }
        rewrite Hs. unfold headOf in *. simpl. rewrite Hhead, Hdir.
        eexists. split; [done|]. split.
        -- by apply calculateNewHead_mod.
        -- by apply calculateNewHead_inBounds.
      * rewrite Hs. simpl. rewrite andb_false_iff, negb_false_iff.
        unfold killed, checkSelfCollision, checkOtherSnakeCollision. simpl.
        intros Hal [Hd|Hk].
        -- rewrite moveSnake_alive, applyNextDirection_alive in Hd. congruence.
        -- apply orb_true_iff in Hk as [Hk|Hk]; [by left|right; right; done].
  - intros row Hrow. unfold calculateNewHead, GRID_WIDTH, GRID_HEIGHT in *. simpl.
    f_equal. rewrite Z.rem_mod_nonneg by lia.
    replace (row + 0 + 20) with (row + 1 * 20) by lia.
    rewrite Z_mod_plus_full. apply Z.mod_small. lia.
Qed.


(** *** Step 1 of the tick *)

Lemma applyNextDirection_queued s d :
  alive s = true -> nextDirection s = Some d ->
  direction (applyNextDirection s) = d.
Proof. unfold applyNextDirection. by intros -> ->. Qed.

Lemma updateGame_direction gs r (slot : PerPlayer Snake -> Snake) :
  slot = player1 \/ slot = player2 ->
  direction (slot (snakes (fst (updateGame gs r))))
  = direction (applyNextDirection (slot (snakes gs))).
Proof.
  intros Hslot. rewrite updateGame_snakes.
  destruct Hslot as [-> | ->]; simpl.
  - unfold moveSnake. destruct (alive _); [|done].
    destruct (body _); [done|]. by destruct (checkFoodCollision _ _).
  - unfold moveSnake at 1. destruct (alive _); [|done].
    destruct (body _); [done|]. by destruct (checkFoodCollision _ _).
Qed.

(** C4.  While a match is being played, step 1 of the tick gives every
    alive snake its queued heading, whatever the current heading is: after
    the tick the heading is the queued one, and a heading queued through
    [changeDirection] is applied by the next tick, in particular the
    heading opposite to the current one (no 180-degree lockout). *)
Theorem queued_heading_applied_unconditionally (gs : GameState) (r : Rng) :
  isGameOver gs = false ->
  (forall (slot : PerPlayer Snake -> Snake) (d : Direction),
      slot = player1 \/ slot = player2 ->
      alive (slot (snakes gs)) = true ->
      nextDirection (slot (snakes gs)) = Some d ->
      direction (applyNextDirection (slot (snakes gs))) = d
      /\ direction (slot (snakes (fst (updateGame gs r)))) = d)
  /\ (forall d : Direction,
        alive (player1 (snakes gs)) = true ->
        direction (player1 (snakes (fst
          (updateGame (changeDirection gs (player1 (players gs)) d) r)))) = d)
  /\ (forall d : Direction,
        alive (player2 (snakes gs)) = true ->
        player2 (players gs) <> player1 (players gs) ->
        direction (player2 (snakes (fst
          (updateGame (changeDirection gs (player2 (players gs)) d) r)))) = d)
  /\ (alive (player1 (snakes gs)) = true ->
      direction (player1 (snakes (fst
        (updateGame (changeDirection gs (player1 (players gs))
                       (opposite (direction (player1 (snakes gs))))) r))))
      = opposite (direction (player1 (snakes gs)))).
Proof.
  intros _.
  assert (forall d : Direction,
    alive (player1 (snakes gs)) = true ->
    direction (player1 (snakes (fst
      (updateGame (changeDirection gs (player1 (players gs)) d) r)))) = d) as Hp1.
  { intros d Hal. rewrite (updateGame_direction _ _ player1) by (by left).
    apply applyNextDirection_queued; unfold changeDirection; simpl;
      by rewrite decide_True. }
  split_and!; [| exact Hp1 | | by auto].
  - intros slot d Hslot Hal Hq. split.
    + by apply applyNextDirection_queued.
    + rewrite updateGame_direction by done. by apply applyNextDirection_queued.
  - intros d Hal Hne. rewrite (updateGame_direction _ _ player2) by (by right).
    apply applyNextDirection_queued; unfold changeDirection; simpl;
      rewrite decide_False by done; by rewrite decide_True.
Qed.

Lemma updateGame_terminal gs r :
  (isGameOver (fst (updateGame gs r)), winner (fst (updateGame gs r)))
  = terminalResult (snakes (fst (updateGame gs r))).
Proof.
  unfold updateGame. cbv zeta.
  destruct (moveSnake _ (food gs)) as [m1 fd1].
  destruct (moveSnake _ fd1) as [m2 fd2].
  destruct (ensureMinimumFood _ _ fd2 r) as [fd3 r'].
  by destruct (terminalResult _) as [over win] eqn:Ht.
Qed.

(** *** The theorems at the concrete match *)

Lemma game0_created :
  @createGame Scenario.plainEthers Scenario.hostA Scenario.guestB Scenario.rng0
  = Some (Scenario.game0, drop_draws 2 (drop_draws 2 (drop_draws 2 Scenario.rng0))).
Proof. reflexivity. Qed.

Lemma createGame_initial_state_witness :
  Scenario.hostA <> Scenario.guestB
  /\ exists gs r',
       @createGame Scenario.plainEthers Scenario.hostA Scenario.guestB Scenario.rng0
       = Some (gs, r')
       /\ freshSnake (player1 (snakes gs)) {| x := 3; y := 3 |} RIGHT
       /\ freshSnake (player2 (snakes gs))
            {| x := GRID_WIDTH - 4; y := GRID_HEIGHT - 4 |} LEFT
       /\ length (food gs) = 3%nat
       /\ winner gs = None
       /\ isGameOver gs = false
       /\ gameTime gs = 0.
Proof.
  assert (Scenario.hostA <> Scenario.guestB) as Hne by discriminate.
  split; [exact Hne|].
  apply (@createGame_initial_state Scenario.plainEthers Scenario.hostA Scenario.guestB
           Scenario.rng0 Hne); simpl; eexists; reflexivity.
Defined.

Lemma heads_wrap_around_grid_witness :
  @reachable Scenario.plainEthers Scenario.game0
  /\ exists h',
       headOf (player1 (snakes (fst (updateGame Scenario.game0 Scenario.rng0)))) = Some h'
       /\ inBounds h'.
Proof.
  assert (@reachable Scenario.plainEthers Scenario.game0) as Hr.
  { eapply (@reachable_create Scenario.plainEthers). exact game0_created. }
  split; [exact Hr|].
  destruct (@heads_wrap_around_grid Scenario.plainEthers Scenario.game0 Scenario.rng0 Hr)
    as [Hslots _].
  destruct (Hslots player1 (or_introl eq_refl)) as (h & _ & _ & Hmove & _).
  destruct (Hmove eq_refl) as (h' & Hh' & _ & Hin).
  exists h'. split; assumption.
Defined.

Lemma queued_heading_applied_unconditionally_witness :
  isGameOver Scenario.game0 = false
  /\ direction (player1 (snakes (fst
       (updateGame (changeDirection Scenario.game0 Scenario.hostA LEFT) Scenario.rng0))))
     = LEFT.
Proof.
  split; [reflexivity|].
  destruct (queued_heading_applied_unconditionally Scenario.game0 Scenario.rng0 eq_refl)
    as (_ & Hq & _).
  exact (Hq LEFT eq_refl).
Defined.

End EngineFacts.

(** ** Facts about the room registry *)

Module RoomsFacts.
Import Rooms.

Lemma isValidBetAmount_spec (a : Q) :
  isValidBetAmount a = true
  <-> (a == 0 \/ a == 1 # 100 \/ a == 1 # 10 \/ a == 1 \/ a == 2)%Q.
Proof.
  unfold isValidBetAmount, VALID_BET_AMOUNTS. simpl.
  rewrite !orb_true_iff, !Qeq_bool_iff. intuition discriminate.
Qed.

Lemma joinRoom_mismatch rooms roomId guestEOA amount room :
  rooms !! roomId = Some room ->
  guest (players room) = None ->
  ~ (amount == betAmount room)%Q ->
  joinRoom rooms roomId guestEOA amount = (inl StakeMismatch, rooms).
Proof.
  intros Hroom Hguest Hne. unfold joinRoom. rewrite Hroom, Hguest.
  destruct (Qeq_bool amount (betAmount room)) eqn:Hq; [|done].
  by apply Qeq_bool_iff in Hq.
Qed.

Lemma joinRoom_match rooms roomId guestEOA amount room :
  rooms !! roomId = Some room ->
  guest (players room) = None ->
  (amount == betAmount room)%Q ->
  joinRoom rooms roomId guestEOA amount
  = (inr (addGuest room guestEOA), <[roomId := addGuest room guestEOA]> rooms).
Proof.
  intros Hroom Hguest Heq. unfold joinRoom. rewrite Hroom, Hguest.
  apply Qeq_bool_iff in Heq. by rewrite Heq.
Qed.

(** C8.  On an existing waiting room without a guest: a join whose stake
    differs from the host's fails with [StakeMismatch], only the caller is
    told, and the registry is untouched, so the room is still waiting with
    no guest; a join with the matching stake sets the guest, moves the room
    from waiting to ready and sends [room:ready] to host and guest.  A
    stake is accepted exactly when it is one of 0, 0.01, 0.1, 1 and 2, and
    [createRoom] refuses any other with [InvalidStake]. *)
Theorem joinRoom_stake_rule (rooms : gmap string Room) (roomId guestEOA hostEOA : string)
    (amount : Q) (room : Room) :
  rooms !! roomId = Some room ->
  roomState room = waiting ->
  host (players room) = Some hostEOA ->
  guest (players room) = None ->
  (~ (amount == betAmount room)%Q ->
     joinRoom rooms roomId guestEOA amount = (inl StakeMismatch, rooms)
     /\ handleJoinRoom rooms roomId guestEOA amount
        = ([(guestEOA, JoinFailed StakeMismatch)], rooms)
     /\ rooms !! roomId = Some room
     /\ roomState room = waiting /\ guest (players room) = None)
  /\ ((amount == betAmount room)%Q ->
      exists room',
        joinRoom rooms roomId guestEOA amount = (inr room', <[roomId := room']> rooms)
        /\ snd (handleJoinRoom rooms roomId guestEOA amount) !! roomId = Some room'
        /\ host (players room') = Some hostEOA
        /\ guest (players room') = Some guestEOA
        /\ betAmount room' = betAmount room
        /\ roomState room' = ready
        /\ fst (handleJoinRoom rooms roomId guestEOA amount)
           = [(hostEOA, RoomReady room'); (guestEOA, RoomReady room')])
  /\ (forall a : Q,
        isValidBetAmount a = true
        <-> (a == 0 \/ a == 1 # 100 \/ a == 1 # 10 \/ a == 1 \/ a == 2)%Q)
  /\ (forall (rooms0 : gmap string Room) (newId host0 : string) (a : Q) (now : Z),
        if isValidBetAmount a
        then exists rooms1 created,
               createRoom rooms0 newId host0 a now = inr rooms1
               /\ rooms1 !! newId = Some created
               /\ betAmount created = a /\ roomState created = waiting
        else createRoom rooms0 newId host0 a now = inl InvalidStake).
Proof.
  intros Hroom Hstate Hhost Hguest. split_and!.
  - intros Hne.
    pose proof (joinRoom_mismatch rooms roomId guestEOA amount room Hroom Hguest Hne) as Hj.
    unfold handleJoinRoom. by rewrite Hj.
  - intros Heq.
    pose proof (joinRoom_match rooms roomId guestEOA amount room Hroom Hguest Heq) as Hj.
    exists (addGuest room guestEOA). unfold handleJoinRoom. rewrite Hj. simpl.
    split_and!; try done.
    + by rewrite lookup_insert_eq.
    + unfold roomState in *. simpl.
      destruct (gameState room) as [gs|]; [|done].
      by destruct (Engine.isGameOver gs).
    + unfold participants. simpl. by rewrite Hhost.
  - apply isValidBetAmount_spec.
  - intros rooms0 newId host0 a now. unfold createRoom.
    destruct (isValidBetAmount a); [|done].
    eexists _, _. split; [done|]. rewrite lookup_insert_eq. done.
Qed.

Lemma joinRoom_stake_rule_witness :
  roomState Scenario.waitingRoom = waiting
  /\ joinRoom {[ Scenario.roomOne := Scenario.waitingRoom ]} Scenario.roomOne
       Scenario.guestB 1
     = (inl StakeMismatch, {[ Scenario.roomOne := Scenario.waitingRoom ]})
  /\ fst (handleJoinRoom {[ Scenario.roomOne := Scenario.waitingRoom ]} Scenario.roomOne
            Scenario.guestB (1 # 10))
     = [(Scenario.hostA, RoomReady Scenario.readyRoom);
        (Scenario.guestB, RoomReady Scenario.readyRoom)].
Proof.
  split; [reflexivity|].
  destruct (joinRoom_stake_rule {[ Scenario.roomOne := Scenario.waitingRoom ]}
              Scenario.roomOne Scenario.guestB Scenario.hostA 1 Scenario.waitingRoom)
    as (Hmis & _); [apply lookup_singleton_eq | reflexivity | reflexivity | reflexivity |].
  destruct (joinRoom_stake_rule {[ Scenario.roomOne := Scenario.waitingRoom ]}
              Scenario.roomOne Scenario.guestB Scenario.hostA (1 # 10) Scenario.waitingRoom)
    as (_ & Hok & _); [apply lookup_singleton_eq | reflexivity | reflexivity | reflexivity |].
  split.
  - apply Hmis. discriminate.
  - destruct (Hok ltac:(reflexivity)) as (room' & Hj & _ & _ & _ & _ & _ & Hmsgs).
    rewrite Hmsgs. unfold joinRoom in Hj. rewrite lookup_singleton_eq in Hj.
    simpl in Hj. injection Hj as Hr _. by rewrite <- Hr.
Defined.

End RoomsFacts.

(** ** Facts about the game handlers *)

Module HandlersFacts.
Import Settlement.
Import Rooms.
Import Handlers.

Lemma truthy_Some (a : string) : a <> "" -> truthy (Some a) = true.
Proof. intros Ha. simpl. apply negb_true_iff. by apply String.eqb_neq. Qed.

Section Generic.
Context `{Engine.Ethers} `{AppSessions} `{RoomManager} `{Validators}.

(** C6.  A start-game request from an authenticated player who is not the
    host of the room is answered with the error [NOT_AUTHORIZED] and
    nothing else happens: no game state is created, no loop is started, and
    rooms, loops, timers, session storage and traces are as before. *)
Theorem handleStartGame_non_host_rejected (ws : Ws) (p : StartPayload)
    (rid playerEoa : string) (room : Room) (s : Server) :
  roomId p = Some rid -> rid <> "" ->
  findPlayer (connections s) ws = Some playerEoa -> playerEoa <> "" ->
  rooms s !! rid = Some room ->
  host (players room) <> Some playerEoa ->
  handleStartGame ws (Some p) s
  = (Returned, sendError ws "NOT_AUTHORIZED" "Only the host can start the game" s)
  /\ let s' := snd (handleStartGame ws (Some p) s) in
     rooms s' = rooms s
     /\ (forall r, rooms s' !! rid = Some r -> r = room /\ gameState r = gameState room)
     /\ gameLoops s' = gameLoops s /\ intervals s' = intervals s
     /\ timeouts s' = timeouts s /\ nextHandle s' = nextHandle s
     /\ store s' = store s /\ rng s' = rng s
     /\ closeCalls s' = closeCalls s /\ connections s' = connections s
     /\ outbox s'
        = outbox s ++ [ErrorSent ws "NOT_AUTHORIZED" "Only the host can start the game"].
Proof.
  intros Hrid Hne Hplayer Hpne Hroom Hhost.
  assert (handleStartGame ws (Some p) s
          = (Returned, sendError ws "NOT_AUTHORIZED" "Only the host can start the game" s))
    as Heq.
  { unfold handleStartGame. rewrite Hrid, (truthy_Some rid Hne).
    cbn [negb default from_option]. unfold Datatypes.id.
    rewrite Hplayer, (truthy_Some playerEoa Hpne). cbn [negb].
    rewrite Hroom. by rewrite bool_decide_false. }
  split; [exact Heq|]. rewrite Heq. simpl. split_and!; try done.
  intros r Hr. rewrite Hroom in Hr. by simplify_eq.
Qed.

(** C10.  Once the room manager has accepted a direction change,
    [handleDirectionChange] returns normally and reports no error, and the
    rooms are the ones [processDirectionChange] left, whatever
    [addMoveToSession] does, a throw included. *)
Theorem handleDirectionChange_ignores_tracking_failure (ws : Ws) (p : DirectionPayload)
    (playerEoa : string) (rooms' : gmap string Room) (s : Server) :
  validateDirectionPayload (Some p) = Valid ->
  findPlayer (connections s) ws = Some playerEoa -> playerEoa <> "" ->
  processDirectionChange (rooms s) (directionRoomId p) (direction p) playerEoa
  = (DirectionAccepted, rooms') ->
  let tracked := addMoveToSession (store s) (directionRoomId p) playerEoa (direction p) in
  let s' := snd (handleDirectionChange ws (Some p) s) in
  fst (handleDirectionChange ws (Some p) s) = Returned
  /\ outbox s' = outbox s
  /\ (forall o, o ∈ outbox s' -> o ∈ outbox s)
  /\ rooms s' = rooms'
  /\ store s' = snd tracked
  /\ (fst tracked = Thrown ->
      fst (handleDirectionChange ws (Some p) s) = Returned
      /\ outbox s' = outbox s /\ rooms s' = rooms').
Proof.
  intros Hvalid Hplayer Hpne Hproc tracked s'.
  unfold s', handleDirectionChange.
  rewrite Hvalid, Hplayer, (truthy_Some playerEoa Hpne).
  cbn [negb default from_option]. unfold Datatypes.id.
  rewrite Hproc. subst tracked. cbn [rooms setRooms store].
  destruct (addMoveToSession _ _ _ _) as [[] st']; simpl; split_and!; done.
Qed.

(** *** The game-over path *)

Lemma unawaited_fields (rid : string) (p : Completion * Server) :
  rooms (unawaited rid p) = rooms (snd p)
  /\ connections (unawaited rid p) = connections (snd p)
  /\ gameLoops (unawaited rid p) = gameLoops (snd p)
  /\ intervals (unawaited rid p) = intervals (snd p)
  /\ timeouts (unawaited rid p) = timeouts (snd p)
  /\ nextHandle (unawaited rid p) = nextHandle (snd p)
  /\ rng (unawaited rid p) = rng (snd p)
  /\ outbox (unawaited rid p) = outbox (snd p)
  /\ store (unawaited rid p) = store (snd p)
  /\ closeCalls (unawaited rid p) = closeCalls (snd p)
  /\ (fst p = Returned -> unawaited rid p = snd p).
Proof. destruct p as [[] s]; simpl; by split_and!. Qed.

(** What [handleGameOverAppSession] leaves alone and the one call it may
    make, read after the promise settled. *)
Lemma handleGameOverAppSession_settled (rid : string) (gs : Engine.GameState)
    (s : Server) :
  let s' := snd (handleGameOverAppSession rid gs s) in
  rooms s' = rooms s /\ connections s' = connections s
  /\ gameLoops s' = gameLoops s /\ intervals s' = intervals s
  /\ timeouts s' = timeouts s /\ nextHandle s' = nextHandle s
  /\ rng s' = rng s /\ outbox s' = outbox s
  /\ unhandledRejections s' = unhandledRejections s
  /\ (closeCalls s' = closeCalls s
      \/ exists room, rooms s !! rid = Some room
           /\ closeCalls s' = closeCalls s ++ [(rid, winnerEOAOf room gs, gameDataOf gs)]).
Proof.
  unfold handleGameOverAppSession.
  destruct (rooms s !! rid) as [room|] eqn:Hroom; [|by split_and!; auto].
  unfold callCloseAppSession.
  destruct (closeAppSession _ _ _ _) as [c st'].
  destruct (truthy (appId room)), (hasAppSession (store s) rid), c; simpl;
    split_and!; eauto.
Qed.

(** The same for the call as the loops make it, without awaiting it. *)
Lemma handleGameOverAppSession_frame (rid : string) (gs : Engine.GameState) (s : Server) :
  let s' := unawaited rid (handleGameOverAppSession rid gs s) in
  rooms s' = rooms s /\ connections s' = connections s
  /\ gameLoops s' = gameLoops s /\ intervals s' = intervals s
  /\ timeouts s' = timeouts s /\ nextHandle s' = nextHandle s
  /\ rng s' = rng s /\ outbox s' = outbox s
  /\ (closeCalls s' = closeCalls s
      \/ exists room, rooms s !! rid = Some room
           /\ closeCalls s' = closeCalls s ++ [(rid, winnerEOAOf room gs, gameDataOf gs)]).
Proof.
  cbv zeta.
  destruct (unawaited_fields rid (handleGameOverAppSession rid gs s))
    as (-> & -> & -> & -> & -> & -> & -> & -> & _ & -> & _).
  destruct (handleGameOverAppSession_settled rid gs s)
    as (Hr & Hc & Hg & Hi & Ht & Hn & Hrng & Ho & _ & Hcc).
  by split_and!.
Qed.

(** The promise of [handleGameOverAppSession] rejects only when the close
    itself rejected with [null] or [undefined]. *)
Lemma handleGameOverAppSession_rejects_only_on_nullish (rid : string)
    (gs : Engine.GameState) (s : Server) :
  (forall st w gd, fst (closeAppSession st rid w gd) <> Rejected Nullish) ->
  fst (handleGameOverAppSession rid gs s) = Returned.
Proof.
  intros Hnot. unfold handleGameOverAppSession.
  destruct (rooms s !! rid) as [room|]; [|done].
  unfold callCloseAppSession.
  pose proof (Hnot (store s) (winnerEOAOf room gs) (gameDataOf gs)) as Hc.
  destruct (closeAppSession _ _ _ _) as [[|[]] st']; simpl in *;
    destruct (truthy (appId room)), (hasAppSession (store s) rid); done.
Qed.

(** The slip in the [catch]: a close that rejects with [null] or
    [undefined] makes the handler's own promise reject, and the loop that
    called it without awaiting is left with an unhandled rejection. *)
Lemma nullish_rejection_escapes_the_catch (rid : string) (gs : Engine.GameState)
    (room : Room) (st' : SessionStore) (s : Server) :
  rooms s !! rid = Some room -> truthy (appId room) = true ->
  closeAppSession (store s) rid (winnerEOAOf room gs) (gameDataOf gs)
  = (Rejected Nullish, st') ->
  fst (handleGameOverAppSession rid gs s) = Thrown
  /\ unhandledRejections (unawaited rid (handleGameOverAppSession rid gs s))
     = unhandledRejections s ++ [rid].
Proof.
  intros Hroom Happ Hclose. unfold handleGameOverAppSession, callCloseAppSession.
  by rewrite Hroom, Happ, Hclose.
Qed.

Lemma handleGameOverAppSession_nothing_to_close (rid : string) (gs : Engine.GameState)
    (s : Server) :
  (rooms s !! rid = None
   \/ exists room, rooms s !! rid = Some room
        /\ truthy (appId room) = false /\ hasAppSession (store s) rid = false) ->
  handleGameOverAppSession rid gs s = (Returned, s).
Proof.
  unfold handleGameOverAppSession.
  intros [-> | (room & -> & -> & ->)]; done.
Qed.

Lemma fireInterval_cleared (h : nat) (s : Server) :
  intervals s !! h = None -> fireInterval h s = s.
Proof. unfold fireInterval. by intros ->. Qed.

Lemma gameLoopTick_game_over (h : nat) (rid : string) (gs : Engine.GameState)
    (rooms' : gmap string Room) (rng' : Engine.Rng) (s : Server) :
  updateGameState (rooms s) (rng s) rid = (Updated gs true, rooms', rng') ->
  let s' := gameLoopTick h rid s in
  intervals s' = delete h (intervals s)
  /\ gameLoops s' = delete rid (gameLoops s)
  /\ timeouts s' = timeouts s ++ [(5000, rid)]
  /\ rooms s' = rooms'
  /\ (closeCalls s' = closeCalls s
      \/ exists w gd, closeCalls s' = closeCalls s ++ [(rid, w, gd)]).
Proof.
  intros Hupd. unfold gameLoopTick. rewrite Hupd. cbv zeta.
  match goal with
  | |- context [handleGameOverAppSession rid gs ?t] =>
      pose proof (handleGameOverAppSession_frame rid gs t) as Hf; cbv zeta in Hf;
      destruct Hf as (Hr & _ & Hg & Hi & Ht & _ & _ & _ & Hc)
  end.
  cbn [timeouts setTimeout setTimeouts intervals gameLoops rooms closeCalls].
  rewrite Hr, Hg, Hi, Ht. split_and!; [done | done | done | done |].
  destruct Hc as [Hc | (room & _ & Hc)]; rewrite Hc; [by left|].
  right. by eexists _, _.
Qed.

Lemma gameLoopTick_game_over_handled (h : nat) (rid : string) (gs : Engine.GameState)
    (rooms' : gmap string Room) (rng' : Engine.Rng) (s : Server) :
  updateGameState (rooms s) (rng s) rid = (Updated gs true, rooms', rng') ->
  (forall st w gd, fst (closeAppSession st rid w gd) <> Rejected Nullish) ->
  unhandledRejections (gameLoopTick h rid s) = unhandledRejections s.
Proof.
  intros Hupd Hnot. unfold gameLoopTick. rewrite Hupd. cbv zeta.
  match goal with
  | |- context [handleGameOverAppSession rid gs ?t] =>
      pose proof (handleGameOverAppSession_rejects_only_on_nullish rid gs t Hnot) as Hret;
      destruct (unawaited_fields rid (handleGameOverAppSession rid gs t))
        as (_ & _ & _ & _ & _ & _ & _ & _ & _ & _ & Heq);
      pose proof (handleGameOverAppSession_settled rid gs t) as Hf; cbv zeta in Hf;
      destruct Hf as (_ & _ & _ & _ & _ & _ & _ & _ & Hu & _)
  end.
  cbn [unhandledRejections setTimeout setTimeouts]. by rewrite (Heq Hret), Hu.
Qed.

Lemma game_over_tick_cleared (h : nat) (rid : string) (gs : Engine.GameState)
    (rooms' : gmap string Room) (rng' : Engine.Rng) (s : Server) :
  intervals s !! h = Some (GameLoop rid) ->
  updateGameState (rooms s) (rng s) rid = (Updated gs true, rooms', rng') ->
  intervals (fireInterval h s) !! h = None
  /\ gameLoops (fireInterval h s) !! rid = None.
Proof.
  intros Hint Hupd. unfold fireInterval. rewrite Hint.
  pose proof (gameLoopTick_game_over h rid gs rooms' rng' s Hupd) as Ht.
  cbv zeta in Ht. destruct Ht as (Hi & Hg & _). rewrite Hi, Hg.
  split; apply lookup_delete_eq.
Qed.

(** Timeouts fire oldest first; firing them touches the rooms and the
    queue only. *)
Lemma fireTimeout_fields (s : Server) :
  timeouts (fireTimeout s) = tail (timeouts s)
  /\ closeCalls (fireTimeout s) = closeCalls s
  /\ intervals (fireTimeout s) = intervals s
  /\ unhandledRejections (fireTimeout s) = unhandledRejections s.
Proof.
  unfold fireTimeout. destruct (timeouts s) as [|[d r] rest] eqn:Ht;
    by split_and!.
Qed.

Lemma tail_drop {A : Type} (n : nat) (l : list A) : tail (drop n l) = drop (S n) l.
Proof.
  revert l. induction n as [|n IH]; intros [|a l]; simpl; done.
Qed.

Lemma fireTimeouts_queue (n : nat) (s : Server) :
  timeouts (Nat.iter n fireTimeout s) = drop n (timeouts s)
  /\ closeCalls (Nat.iter n fireTimeout s) = closeCalls s
  /\ intervals (Nat.iter n fireTimeout s) = intervals s
  /\ unhandledRejections (Nat.iter n fireTimeout s) = unhandledRejections s.
Proof.
  induction n as [|n (IHt & IHc & IHi & IHu)]; [by rewrite drop_0|].
  rewrite !Nat.iter_succ.
  destruct (fireTimeout_fields (Nat.iter n fireTimeout s)) as (-> & -> & -> & ->).
  rewrite IHt, tail_drop. by split_and!.
Qed.

(** C7.  When a tick of a room's game loop ends the match and the close,
    if it fails, fails with a value other than [null] and [undefined]: the
    loop is cleared and unregistered, [closeAppSession] is attempted at
    most once (a failed close is caught and logged, not retried), the
    handler's promise does not reject, and the room's cleanup is scheduled
    5000 ms later whatever the close did; once the timeouts scheduled
    before it have fired, that timer runs the room manager's [closeRoom]
    for the room.  Such a failing close never prevents the teardown. *)
Theorem game_over_tick_schedules_cleanup (h : nat) (rid : string) (gs : Engine.GameState)
    (rooms' : gmap string Room) (rng' : Engine.Rng) (s : Server) :
  intervals s !! h = Some (GameLoop rid) ->
  updateGameState (rooms s) (rng s) rid = (Updated gs true, rooms', rng') ->
  (forall st w gd, fst (closeAppSession st rid w gd) <> Rejected Nullish) ->
  let s' := fireInterval h s in
  let earlier := length (timeouts s) in
  (closeCalls s' = closeCalls s
   \/ exists w gd, closeCalls s' = closeCalls s ++ [(rid, w, gd)])
  /\ unhandledRejections s' = unhandledRejections s
  /\ intervals s' = delete h (intervals s)
  /\ gameLoops s' = delete rid (gameLoops s)
  /\ timeouts s' = timeouts s ++ [(5000, rid)]
  /\ timeouts (Nat.iter earlier fireTimeout s') = [(5000, rid)]
  /\ rooms (Nat.iter (S earlier) fireTimeout s')
     = closeRoomOf (rooms (Nat.iter earlier fireTimeout s')) rid
  /\ timeouts (Nat.iter (S earlier) fireTimeout s') = []
  /\ closeCalls (Nat.iter (S earlier) fireTimeout s') = closeCalls s'
  /\ unhandledRejections (Nat.iter (S earlier) fireTimeout s') = unhandledRejections s
  /\ (timeouts s = [] ->
      rooms (fireTimeout s') = closeRoomOf rooms' rid
      /\ timeouts (fireTimeout s') = []
      /\ closeCalls (fireTimeout s') = closeCalls s').
Proof.
  intros Hint Hupd Hnot s' earlier. unfold s', fireInterval. rewrite Hint.
  pose proof (gameLoopTick_game_over h rid gs rooms' rng' s Hupd) as Ht.
  pose proof (gameLoopTick_game_over_handled h rid gs rooms' rng' s Hupd Hnot) as Hu.
  cbv zeta in Ht. destruct Ht as (Hi & Hg & Ht & Hr & Hc).
  set (t := gameLoopTick h rid s) in *.
  destruct (fireTimeouts_queue earlier t) as (Hq & _).
  destruct (fireTimeouts_queue (S earlier) t) as (Hq' & Hcc' & _ & Hu').
  assert (timeouts (Nat.iter earlier fireTimeout t) = [(5000, rid)]) as Hlast.
  { rewrite Hq, Ht. unfold earlier. by rewrite drop_app_length. }
  split_and!; try done.
  - rewrite Nat.iter_succ. unfold fireTimeout at 1. by rewrite Hlast.
  - rewrite Hq', Ht. apply drop_ge. rewrite length_app. simpl. unfold earlier. lia.
  - by rewrite Hu'.
  - intros Hnil. unfold fireTimeout. rewrite Ht, Hnil. simpl. by rewrite Hr.
Qed.

(** C2.  A game-over trigger calls [closeAppSession] at most once, and only
    for a room that exists and carries an app id or has a stored session;
    a trigger for a room that is gone, or that has neither, is a no-op: no
    call, and server state and session storage are unchanged.  The tick
    that ends the match clears its interval and unregisters the loop, so
    that loop never fires a later tick, and firing a cleared interval
    changes nothing. *)
Theorem game_over_trigger_close_calls (rid : string) (gs : Engine.GameState) (s : Server) :
  let s' := snd (handleGameOverAppSession rid gs s) in
  (closeCalls s' = closeCalls s
   \/ exists room, rooms s !! rid = Some room
        /\ (truthy (appId room) = true \/ hasAppSession (store s) rid = true)
        /\ closeCalls s' = closeCalls s ++ [(rid, winnerEOAOf room gs, gameDataOf gs)])
  /\ ((rooms s !! rid = None
       \/ exists room, rooms s !! rid = Some room
            /\ truthy (appId room) = false /\ hasAppSession (store s) rid = false) ->
      s' = s /\ closeCalls s' = closeCalls s /\ store s' = store s)
  /\ (forall h rooms' rng',
        intervals s !! h = Some (GameLoop rid) ->
        updateGameState (rooms s) (rng s) rid = (Updated gs true, rooms', rng') ->
        intervals (fireInterval h s) !! h = None
        /\ gameLoops (fireInterval h s) !! rid = None
        /\ fireInterval h (fireInterval h s) = fireInterval h s)
  /\ (forall h, intervals s !! h = None -> fireInterval h s = s).
Proof.
  intros s'. split_and!.
  - pose proof (handleGameOverAppSession_settled rid gs s) as Hf. cbv zeta in Hf.
    destruct Hf as (_ & _ & _ & _ & _ & _ & _ & _ & _ & [Hc | (room & Hroom & Hc)]);
      [by left|].
    destruct (truthy (appId room)) eqn:Happ; [right; eauto|].
    destruct (hasAppSession (store s) rid) eqn:Hhas; [right; eauto|].
    left. unfold s'.
    by rewrite handleGameOverAppSession_nothing_to_close by (right; eauto).
  - intros Hnone. unfold s'.
    by rewrite handleGameOverAppSession_nothing_to_close.
  - intros h rooms' rng' Hint Hupd.
    pose proof (game_over_tick_cleared h rid gs rooms' rng' s Hint Hupd) as [Hcl Hun].
    split_and!; [done | done |]. by apply fireInterval_cleared.
  - intros h Hh. by apply fireInterval_cleared.
Qed.

End Generic.

(** *** The allocation of the close *)

Lemma closeAllocations_by_winner (room : Room) (gs : Engine.GameState)
    (hostEOA guestEOA : string) :
  host (players room) = Some hostEOA ->
  guest (players room) = Some guestEOA ->
  hostEOA <> guestEOA ->
  let bet := betAmount room in
  let alloc := closeAllocations hostEOA guestEOA bet (winnerEOAOf room gs) in
  (Engine.winner gs = Some "player1" ->
     alloc = [ {| participant := hostEOA; asset := "usdc"; amount := 2 * bet |};
               {| participant := guestEOA; asset := "usdc"; amount := 0 |} ])
  /\ (Engine.winner gs = Some "player2" ->
      alloc = [ {| participant := hostEOA; asset := "usdc"; amount := 0 |};
                {| participant := guestEOA; asset := "usdc"; amount := 2 * bet |} ])
  /\ (Engine.winner gs = None ->
      alloc = [ {| participant := hostEOA; asset := "usdc"; amount := bet |};
                {| participant := guestEOA; asset := "usdc"; amount := bet |} ])
  /\ (forall gs' : Engine.GameState,
        Engine.winner gs' = Engine.winner gs ->
        closeAllocations hostEOA guestEOA bet (winnerEOAOf room gs') = alloc).
Proof.
  intros Hhost Hguest Hne bet alloc. subst alloc. unfold winnerEOAOf.
  rewrite Hhost, Hguest. split_and!.
  - intros ->. rewrite decide_True by done. unfold closeAllocations.
    by rewrite decide_True.
  - intros ->. rewrite decide_False by done. rewrite decide_True by done.
    unfold closeAllocations. by rewrite decide_False.
  - intros ->. by rewrite !decide_False.
  - by intros gs' ->.
Qed.

Lemma tick_result_by_survivor (gs0 : Engine.GameState) (r : Engine.Rng) :
  let gs := fst (Engine.updateGame gs0 r) in
  let alive1 := Engine.alive (Engine.player1 (Engine.snakes gs)) in
  let alive2 := Engine.alive (Engine.player2 (Engine.snakes gs)) in
  (alive1 = true -> alive2 = false ->
     Engine.isGameOver gs = true /\ Engine.winner gs = Some "player1")
  /\ (alive1 = false -> alive2 = true ->
      Engine.isGameOver gs = true /\ Engine.winner gs = Some "player2")
  /\ (alive1 = false -> alive2 = false ->
      Engine.isGameOver gs = true /\ Engine.winner gs = None).
Proof.
  cbv zeta. pose proof (EngineFacts.updateGame_terminal gs0 r) as Ht.
  unfold Engine.terminalResult in Ht.
  split_and!; intros Ha1 Ha2; rewrite Ha1, Ha2 in Ht; by simplify_eq.
Qed.

Section Close.
#[local] Existing Instance specAppSessions.

(** What the game-over handler leaves in the session storage when the
    room's session is active and the Settlement Service answers. *)
Lemma handleGameOverAppSession_closes (rid : string) (room : Room)
    (gs : Engine.GameState) (sess : Session) (s : Server) :
  rooms s !! rid = Some room ->
  sessions (store s) !! rid = Some sess ->
  phase sess = active ->
  serviceUp (store s) = true ->
  handleGameOverAppSession rid gs s
  = (Returned,
     setStore
       {| sessions :=
            <[rid := {| phase := closed;
                        sessionHost := sessionHost sess;
                        sessionGuest := sessionGuest sess;
                        stake := stake sess;
                        finalAllocation :=
                          Some (closeAllocations (sessionHost sess) (sessionGuest sess)
                                  (stake sess) (winnerEOAOf room gs));
                        moves := moves sess |}]> (sessions (store s));
          serviceUp := serviceUp (store s) |}
       (setCloseCalls
          (closeCalls s ++ [(rid, winnerEOAOf room gs, gameDataOf gs)]) s)).
Proof.
  intros Hroom Hsess Hphase Hup.
  assert (hasAppSession (store s) rid = true) as Hhas.
  { simpl. rewrite Hsess. by apply bool_decide_eq_true. }
  unfold handleGameOverAppSession, callCloseAppSession. rewrite Hroom, Hhas.
  simpl closeAppSession. unfold specCloseAppSession.
  rewrite Hsess, Hphase, Hup.
  by destruct (truthy (appId room)).
Qed.

(** C3.  When a match has ended and the room's session, opened for the
    room's two players at the room's bet, is active, the game-over handler
    closes it with one [closeAppSession] call carrying the winner's
    address, and the allocation the close stores follows from the terminal
    result alone: the sole survivor gets the whole pot, twice the bet (both
    stakes), and the other 0; on a tie each participant gets the stake
    back.  Two final states with the same result leave the same
    allocation whatever their scores, and the result of a tick is decided
    by who is alive. *)
Theorem close_allocation_follows_result (rid : string) (room : Room)
    (gs : Engine.GameState) (hostEOA guestEOA : string) (sess : Session) (s : Server) :
  rooms s !! rid = Some room ->
  host (players room) = Some hostEOA ->
  guest (players room) = Some guestEOA ->
  hostEOA <> guestEOA ->
  sessions (store s) !! rid = Some sess ->
  phase sess = active ->
  sessionHost sess = hostEOA -> sessionGuest sess = guestEOA ->
  stake sess = betAmount room ->
  serviceUp (store s) = true ->
  let bet := betAmount room in
  let stored (final : Engine.GameState) :=
    sessions (store (snd (handleGameOverAppSession rid final s))) !! rid
      ≫= finalAllocation in
  fst (handleGameOverAppSession rid gs s) = Returned
  /\ closeCalls (snd (handleGameOverAppSession rid gs s))
     = closeCalls s ++ [(rid, winnerEOAOf room gs, gameDataOf gs)]
  /\ phase <$> sessions (store (snd (handleGameOverAppSession rid gs s))) !! rid
     = Some closed
  /\ (Engine.winner gs = Some "player1" ->
      stored gs
      = Some [ {| participant := hostEOA; asset := "usdc"; amount := 2 * bet |};
               {| participant := guestEOA; asset := "usdc"; amount := 0 |} ])
  /\ (Engine.winner gs = Some "player2" ->
      stored gs
      = Some [ {| participant := hostEOA; asset := "usdc"; amount := 0 |};
               {| participant := guestEOA; asset := "usdc"; amount := 2 * bet |} ])
  /\ (Engine.winner gs = None ->
      stored gs
      = Some [ {| participant := hostEOA; asset := "usdc"; amount := bet |};
               {| participant := guestEOA; asset := "usdc"; amount := bet |} ])
  /\ (2 * bet == bet + bet)%Q
  /\ (forall gs' : Engine.GameState,
        Engine.winner gs' = Engine.winner gs -> stored gs' = stored gs)
  /\ (forall (gs0 : Engine.GameState) (r : Engine.Rng),
        gs = fst (Engine.updateGame gs0 r) ->
        let alive1 := Engine.alive (Engine.player1 (Engine.snakes gs)) in
        let alive2 := Engine.alive (Engine.player2 (Engine.snakes gs)) in
        (alive1 = true -> alive2 = false ->
           Engine.isGameOver gs = true /\ Engine.winner gs = Some "player1")
        /\ (alive1 = false -> alive2 = true ->
            Engine.isGameOver gs = true /\ Engine.winner gs = Some "player2")
        /\ (alive1 = false -> alive2 = false ->
            Engine.isGameOver gs = true /\ Engine.winner gs = None)).
Proof.
  intros Hroom Hhost Hguest Hne Hsess Hphase Hsh Hsg Hstake Hup bet stored.
  assert (forall final,
    stored final
    = Some (closeAllocations hostEOA guestEOA bet (winnerEOAOf room final))) as Hstored.
  { intros final. unfold stored.
    rewrite (handleGameOverAppSession_closes rid room final sess s) by done.
    cbn [snd store setStore sessions]. rewrite lookup_insert_eq. simpl.
    by rewrite Hsh, Hsg, Hstake. }
  destruct (closeAllocations_by_winner room gs hostEOA guestEOA Hhost Hguest Hne)
    as (Hp1 & Hp2 & Htie & Hsame).
  rewrite (handleGameOverAppSession_closes rid room gs sess s) by done.
  cbn [fst snd store setStore sessions closeCalls setCloseCalls].
  rewrite lookup_insert_eq.
  split_and!; try done.
  - intros Hw. rewrite Hstored. f_equal. by apply Hp1.
  - intros Hw. rewrite Hstored. f_equal. by apply Hp2.
  - intros Hw. rewrite Hstored. f_equal. by apply Htie.
  - ring.
  - intros gs' Hw. rewrite !Hstored. f_equal. by apply Hsame.
  - intros gs0 r ->. apply tick_result_by_survivor.
Qed.

End Close.

(** *** Running the handlers on the concrete match *)

Section Concrete.
#[local] Existing Instance Scenario.plainEthers.
#[local] Existing Instance specAppSessions.
#[local] Existing Instance specRoomManager.
#[local] Existing Instance Scenario.specValidators.
Import Scenario.

Lemma gameAfterCrash_result :
  Engine.isGameOver gameAfterCrash = true
  /\ Engine.winner gameAfterCrash = Some "player2"
  /\ Engine.alive (Engine.player1 (Engine.snakes gameAfterCrash)) = false
  /\ Engine.alive (Engine.player2 (Engine.snakes gameAfterCrash)) = true.
Proof. vm_compute. done. Qed.

(** C1.  On a ready room with both players and no app session at all, the
    host's start-game request returns normally with the game state
    created, [game:started] broadcast and the game loop running, while no
    signature was collected and no session is open for the room. *)
Theorem handleStartGame_plays_without_session :
  let s' := snd (handleStartGame 1%nat (Some hostPayload) readyServer) in
  fst (handleStartGame 1%nat (Some hostPayload) readyServer) = Returned
  /\ ~ sessionOpen readyServer roomOne
  /\ loopRunning s' roomOne
  /\ Broadcast roomOne "game:started" (StartedPayload roomOne) ∈ outbox s'
  /\ (exists room, rooms s' !! roomOne = Some room /\ roomState room = playing)
  /\ ~ sessionOpen s' roomOne.
Proof.
  assert (forall s : Server,
    rooms s !! roomOne ≫= appId = None ->
    sessions (store s) !! roomOne = None -> ~ sessionOpen s roomOne) as Hclosed.
  { intros s Happ Hst [(room & Hroom & Ht) | Hhas].
    - rewrite Hroom in Happ. simpl in Happ. by rewrite Happ in Ht.
    - simpl in Hhas. rewrite Hst in Hhas. by vm_compute in Hhas. }
  cbv zeta. split_and!.
  - by vm_compute.
  - apply Hclosed; by vm_compute.
  - exists 0%nat. split; by vm_compute.
  - vm_compute. apply list_elem_of_here.
  - eexists. split; [by vm_compute|]. by vm_compute.
  - apply Hclosed; by vm_compute.
Qed.

(** C2, as stated, fails: the room carries an app id, the first game-over
    trigger closes the session, and a duplicate trigger calls
    [closeAppSession] once more. *)
Lemma duplicate_game_over_calls_close_again :
  let s0 := finishedServer true in
  let s1 := snd (handleGameOverAppSession roomOne gameAfterCrash s0) in
  let s2 := snd (handleGameOverAppSession roomOne gameAfterCrash s1) in
  phase <$> sessions (store s1) !! roomOne = Some closed
  /\ length (closeCalls s1) = 1%nat
  /\ length (closeCalls s2) = 2%nat.
Proof. by vm_compute. Qed.

(** C7, as stated, fails: the Settlement Service is unreachable, the close
    attempted by the game-over tick throws, and the server goes quiet with
    that single attempt: the only timer left is the room's cleanup, and
    after it the room is gone, the session is still active and no further
    close was tried. *)
Lemma failed_close_is_not_retried :
  let s1 := fireInterval 0 (crashingServer false) in
  let s2 := fireTimeout s1 in
  fst (specCloseAppSession (store (crashingServer false)) roomOne (Some guestB)
         (gameDataOf gameAfterCrash)) = Rejected ErrorValue
  /\ closeCalls s1 = [(roomOne, Some guestB, gameDataOf gameAfterCrash)]
  /\ intervals s1 = ∅ /\ timeouts s1 = [(5000, roomOne)]
  /\ closeCalls s2 = closeCalls s1
  /\ intervals s2 = ∅ /\ timeouts s2 = []
  /\ rooms s2 !! roomOne = None
  /\ phase <$> sessions (store s2) !! roomOne = Some active.
Proof. by vm_compute. Qed.

Lemma specCloseAppSession_never_nullish (st : Store) (rid : string)
    (w : option string) (gd : GameData) :
  fst (specCloseAppSession st rid w gd) <> Rejected Nullish.
Proof.
  unfold specCloseAppSession.
  destruct (sessions st !! rid) as [sess|]; [|done].
  destruct (phase sess); [|done|done]. by destruct (serviceUp st).
Qed.

Lemma game_over_tick_schedules_cleanup_witness :
  intervals (crashingServer false) !! 0%nat = Some (GameLoop roomOne)
  /\ timeouts (fireInterval 0 (crashingServer false)) = [(5000, roomOne)]
  /\ unhandledRejections (fireInterval 0 (crashingServer false)) = []
  /\ rooms (fireTimeout (fireInterval 0 (crashingServer false))) !! roomOne = None.
Proof.
  pose (upd := updateGameState (rooms (crashingServer false)) (rng (crashingServer false))
                 roomOne).
  destruct (game_over_tick_schedules_cleanup 0 roomOne gameAfterCrash
              (snd (fst upd)) (snd upd) (crashingServer false))
    as (_ & Hu & _ & _ & Ht & _ & _ & _ & _ & _ & Hfire);
    [reflexivity | reflexivity | intros st w gd; apply specCloseAppSession_never_nullish |].
  split; [reflexivity|]. split; [exact Ht|]. split; [exact Hu|].
  destruct (Hfire eq_refl) as (Hr & _). rewrite Hr. apply lookup_delete_eq.
Defined.

Lemma close_allocation_follows_result_witness :
  sessions (store (finishedServer true)) !! roomOne = Some activeSession
  /\ sessions (store (snd (handleGameOverAppSession roomOne gameAfterCrash
                             (finishedServer true)))) !! roomOne
       ≫= finalAllocation
     = Some [ {| participant := hostA; asset := "usdc"; amount := 0 |};
              {| participant := guestB; asset := "usdc"; amount := 2 * (1 # 10) |} ].
Proof.
  split; [reflexivity|].
  assert (hostA <> guestB) as Hne by discriminate.
  destruct (close_allocation_follows_result roomOne
              (withAppId (setGameState readyRoom gameAfterCrash) "0xapp")
              gameAfterCrash hostA guestB activeSession (finishedServer true))
    as (_ & _ & _ & _ & Hp2 & _);
    [apply lookup_singleton_eq | reflexivity | reflexivity | exact Hne
    | apply lookup_singleton_eq | reflexivity | reflexivity | reflexivity
    | reflexivity | reflexivity |].
  apply Hp2. reflexivity.
Defined.

Lemma handleStartGame_non_host_rejected_witness :
  findPlayer (connections readyServer) 2%nat = Some guestB
  /\ handleStartGame 2%nat (Some hostPayload) readyServer
     = (Returned,
        sendError 2%nat "NOT_AUTHORIZED" "Only the host can start the game" readyServer).
Proof.
  split; [reflexivity|].
  apply (handleStartGame_non_host_rejected 2%nat hostPayload roomOne guestB readyRoom
           readyServer);
    [reflexivity | discriminate | reflexivity | discriminate
    | apply lookup_singleton_eq | discriminate].
Defined.

Lemma handleDirectionChange_ignores_tracking_failure_witness :
  let s := playingServer game0 ∅ true in
  fst (addMoveToSession (store s) (Some roomOne) hostA (Some "LEFT")) = Thrown
  /\ fst (handleDirectionChange 1%nat (Some uTurn) s) = Returned
  /\ outbox (snd (handleDirectionChange 1%nat (Some uTurn) s)) = [].
Proof.
  cbv zeta. split; [reflexivity|].
  destruct (handleDirectionChange_ignores_tracking_failure 1%nat uTurn hostA
              (snd (processDirectionChange (rooms (playingServer game0 ∅ true))
                      (Some roomOne) (Some "LEFT") hostA))
              (playingServer game0 ∅ true))
    as (Hret & Hout & _); [reflexivity | reflexivity | discriminate | reflexivity |].
  split; [exact Hret | exact Hout].
Defined.

End Concrete.

End HandlersFacts.

(** ** More about game initialisation ([game-init.js]) *)

Module InitFacts.
Import Engine.

Lemma createInitialSnake_cells sx sy d :
  body (createInitialSnake sx sy d)
  = [ behind {| x := sx; y := sy |} d 0;
      behind {| x := sx; y := sy |} d 1;
      behind {| x := sx; y := sy |} d 2 ].
Proof.
  unfold createInitialSnake. cbn [body].
  change (Z.to_nat INITIAL_SNAKE_LENGTH) with 3%nat.
  cbn [pushSegments app]. rewrite !EngineFacts.segment_behind.
  reflexivity.
Qed.

Lemma behind_apart hd d (i j : Z) : i <> j -> behind hd d i <> behind hd d j.
Proof.
  intros Hij Heq. unfold behind in Heq.
  destruct d; simpl in Heq; injection Heq; lia.
Qed.

(** X1.  For a start cell with integer coordinates in the range where
    the additions of the source are exact (within 2^53 - 2 of zero) and any
    heading, [createInitialSnake] lays out exactly three cells, the head
    first at the start cell, every cell one step ahead of the next along
    the heading, and no cell twice; the snake is alive with score 0 and has
    no heading queued. *)
Theorem createInitialSnake_layout (sx sy : Z) (d : Direction) :
  Z.abs sx <= safeStart -> Z.abs sy <= safeStart ->
  let s := createInitialSnake sx sy d in
  length (body s) = 3%nat
  /\ headOf s = Some {| x := sx; y := sy |}
  /\ (forall (k : nat) (p q : Position),
        body s !! k = Some p -> body s !! S k = Some q ->
        p = {| x := x q + fst (unitVector d); y := y q + snd (unitVector d) |})
  /\ NoDup (body s)
  /\ direction s = d /\ nextDirection s = None
  /\ alive s = true /\ score s = 0.
Proof.
  intros _ _ s. subst s. unfold headOf. rewrite createInitialSnake_cells.
  split_and!; try done.
  - unfold behind. simpl. do 2 f_equal; lia.
  - intros k p q Hp Hq.
    destruct k as [|[|[|k]]]; simplify_eq/=; unfold behind; simpl;
      destruct d; simpl; f_equal; lia.
  - rewrite !NoDup_cons, !elem_of_cons, !elem_of_nil.
    split_and!; [| | tauto | apply NoDup_nil_2].
    + intros [Heq|[Heq|[]]]; revert Heq; by apply behind_apart.
    + intros [Heq|[]]; revert Heq; by apply behind_apart.
Qed.

Lemma createInitialSnake_layout_witness :
  Z.abs 16 <= safeStart
  /\ NoDup (body (createInitialSnake 16 16 UP)).
Proof.
  assert (Z.abs 16 <= safeStart) as Hsafe by (vm_compute; discriminate).
  split; [exact Hsafe|].
  destruct (createInitialSnake_layout 16 16 UP Hsafe Hsafe) as (_ & _ & _ & Hnd & _).
  exact Hnd.
Defined.

(** X2.  A game [createGame] returns has six snake cells, all on the grid
    and all distinct, so the match starts without any collision; the
    players recorded are the addresses as [ethers.getAddress] normalised
    them, and the snakes do not depend on the addresses or on the random
    draws. *)
Theorem createGame_snakes_apart `{Ethers} (hostEoa guestEoa : string) (r r' : Rng)
    (gs : GameState) :
  createGame hostEoa guestEoa r = Some (gs, r') ->
  let cells := body (player1 (snakes gs)) ++ body (player2 (snakes gs)) in
  length cells = 6%nat
  /\ Forall inBounds cells
  /\ NoDup cells
  /\ getAddress hostEoa = Some (player1 (players gs))
  /\ getAddress guestEoa = Some (player2 (players gs))
  /\ snakes gs = {| player1 := createInitialSnake 3 3 RIGHT;
                    player2 := createInitialSnake 16 16 LEFT |}.
Proof.
  unfold createGame. intros Hc.
  destruct (getAddress hostEoa) as [h|]; [|done].
  destruct (getAddress guestEoa) as [g|]; [|done].
  injection Hc as <- _. cbn [snakes player1 player2 players].
  rewrite !createInitialSnake_cells.
  split_and!; try done.
  - unfold behind, inBounds, GRID_WIDTH, GRID_HEIGHT. simpl.
    repeat (apply List.Forall_cons; [simpl; lia|]). apply List.Forall_nil.
  - unfold behind. simpl.
    repeat (apply NoDup_cons_2;
            [rewrite ?elem_of_cons, elem_of_nil; intuition discriminate|]).
    apply NoDup_nil_2.
Qed.

Lemma createGame_snakes_apart_witness :
  NoDup (body (player1 (snakes Scenario.game0))
         ++ body (player2 (snakes Scenario.game0))).
Proof.
  destruct (@createGame_snakes_apart Scenario.plainEthers Scenario.hostA Scenario.guestB
              Scenario.rng0 _ Scenario.game0 EngineFacts.game0_created)
    as (_ & _ & Hnd & _).
  exact Hnd.
Defined.

End InitFacts.

(** ** More about the game handlers ([websocket/handlers/game.js]) *)

Module HandlersMore.
Import Settlement.
Import Rooms.
Import Handlers.
Import Events.

Lemma truthy_inv (v : option string) :
  truthy v = true -> exists a, v = Some a /\ a <> "".
Proof.
  destruct v as [a|]; [|done]. simpl. intros Ha. exists a. split; [done|].
  apply negb_true_iff in Ha. by apply String.eqb_neq.
Qed.

Lemma truthy_false_inv (v : option string) :
  truthy v = false -> v = None \/ v = Some "".
Proof.
  destruct v as [a|]; [|by left]. simpl. intros Ha. right.
  apply negb_false_iff in Ha. apply String.eqb_eq in Ha. by subst.
Qed.

Lemma findPlayer_Some conns ws e :
  findPlayer conns ws = Some e -> (e, ws) ∈ conns.
Proof.
  unfold findPlayer. destruct (List.find _ conns) as [[e' w]|] eqn:Hf; [|done].
  simpl. intros [= <-]. apply List.find_some in Hf as [Hin Hw].
  apply bool_decide_eq_true in Hw. simpl in Hw. subst w.
  by apply list_elem_of_In.
Qed.

Section Generic.
Context `{Engine.Ethers} `{AppSessions} `{RoomManager} `{Validators}.

Lemma sameButOutbox_sendError ws code msg (s : Server) :
  sameButOutbox s (sendError ws code msg s).
Proof. by repeat split. Qed.

Lemma startGameLoop_effect rid (s : Server) :
  let s' := startGameLoop rid s in
  intervals s' = intervalsAfterStart (GameLoop rid) s
  /\ gameLoops s' = <[rid := nextHandle s]> (gameLoops s)
  /\ nextHandle s' = S (nextHandle s)
  /\ rooms s' = rooms s /\ connections s' = connections s
  /\ timeouts s' = timeouts s /\ store s' = store s /\ rng s' = rng s
  /\ outbox s' = outbox s /\ closeCalls s' = closeCalls s.
Proof.
  unfold startGameLoop, intervalsAfterStart. simpl.
  destruct (gameLoops s !! rid); simpl; by split_and!.
Qed.

Lemma startGameOverDetectionLoop_effect rid (s : Server) :
  let s' := startGameOverDetectionLoop rid s in
  intervals s' = intervalsAfterStart (GameOverDetectionLoop rid) s
  /\ gameLoops s' = <[rid := nextHandle s]> (gameLoops s)
  /\ nextHandle s' = S (nextHandle s)
  /\ rooms s' = rooms s /\ connections s' = connections s
  /\ timeouts s' = timeouts s /\ store s' = store s /\ rng s' = rng s
  /\ outbox s' = outbox s /\ closeCalls s' = closeCalls s.
Proof.
  unfold startGameOverDetectionLoop, intervalsAfterStart. simpl.
  destruct (gameLoops s !! rid); simpl; by split_and!.
Qed.

Lemma handleStartGame_cases (ws : Ws) (payload : option StartPayload) (s : Server) :
  (exists code msg,
      handleStartGame ws payload s = (Returned, sendError ws code msg s))
  \/ (handleStartGame ws payload s = (Thrown, s)
      /\ exists rid eoa room hostEOA guestEOA,
           payload ≫= roomId = Some rid /\ rid <> ""
           /\ findPlayer (connections s) ws = Some eoa /\ eoa <> ""
           /\ rooms s !! rid = Some room
           /\ host (players room) = Some eoa
           /\ host (players room) = Some hostEOA
           /\ guest (players room) = Some guestEOA /\ guestEOA <> ""
           /\ gameState room = None
           /\ Engine.createGame hostEOA guestEOA (rng s) = None)
  \/ (exists rid eoa room guestEOA gs s1,
        payload ≫= roomId = Some rid /\ rid <> ""
        /\ findPlayer (connections s) ws = Some eoa /\ eoa <> ""
        /\ rooms s !! rid = Some room
        /\ host (players room) = Some eoa
        /\ guest (players room) = Some guestEOA /\ guestEOA <> ""
        /\ ((gameState room = Some gs /\ s1 = s)
            \/ (gameState room = None
                /\ exists rng', Engine.createGame eoa guestEOA (rng s) = Some (gs, rng')
                     /\ s1 = setRng rng'
                              (setRooms (<[rid := setGameState room gs]> (rooms s)) s)))
        /\ handleStartGame ws payload s = (Returned, started rid room gs s1)).
Proof.
  unfold handleStartGame.
  destruct payload as [p|]; [|left; eauto].
  destruct (truthy (roomId p)) eqn:Hrid; cbn [negb]; [|left; eauto].
  apply truthy_inv in Hrid as (rid & Hrid & Hne). rewrite Hrid.
  cbn [default from_option]. unfold Datatypes.id.
  destruct (truthy (findPlayer (connections s) ws)) eqn:Hp; cbn [negb]; [|left; eauto].
  apply truthy_inv in Hp as (eoa & Hp & Hpne). rewrite Hp.
  destruct (rooms s !! rid) as [room|] eqn:Hroom; [|left; eauto].
  destruct (bool_decide (host (players room) = Some eoa)) eqn:Hh; cbn [negb];
    [|left; eauto].
  apply bool_decide_eq_true in Hh.
  destruct (truthy (host (players room))) eqn:Hth; cbn [negb orb]; [|left; eauto].
  destruct (truthy (guest (players room))) eqn:Htg; cbn [negb orb]; [|left; eauto].
  apply truthy_inv in Htg as (g & Hg & Hgne).
  rewrite Hh, Hg. cbn [default from_option]. unfold Datatypes.id.
  destruct (gameState room) as [gs|] eqn:Hgs.
  - right; right. exists rid, eoa, room, g, gs, s.
    simpl. split_and!; eauto.
  - destruct (Engine.createGame eoa g (rng s)) as [[gs rng']|] eqn:Hc.
    + right; right. exists rid, eoa, room, g, gs. eexists.
      simpl. split_and!; eauto.
    + right; left. split; [done|].
      exists rid, eoa, room, eoa, g. simpl. by split_and!.
Qed.

Lemma started_effect rid room gs (s1 : Server) :
  let s' := started rid room gs s1 in
  intervals s' = intervalsAfterStart (GameLoop rid) s1
  /\ gameLoops s' = <[rid := nextHandle s1]> (gameLoops s1)
  /\ nextHandle s' = S (nextHandle s1)
  /\ rooms s' = rooms s1 /\ connections s' = connections s1
  /\ timeouts s' = timeouts s1 /\ store s' = store s1 /\ rng s' = rng s1
  /\ closeCalls s' = closeCalls s1
  /\ outbox s'
     = outbox s1 ++ [Broadcast rid "game:started" (StartedPayload rid);
                     Broadcast rid "room:state" (GameStatePayload gs rid (betAmount room))].
Proof.
  unfold started, startGameLoop, intervalsAfterStart. simpl.
  destruct (gameLoops s1 !! rid); simpl; rewrite <- ?app_assoc; by split_and!.
Qed.

Lemma started_loopRunning rid room gs (s1 : Server) :
  loopRunning (started rid room gs s1) rid.
Proof.
  destruct (started_effect rid room gs s1) as (Hi & Hg & _).
  exists (nextHandle s1). rewrite Hi, Hg. unfold intervalsAfterStart.
  by rewrite !lookup_insert_eq.
Qed.

(** The checks every start-game request passes before the room is looked
    at: an object payload with a room id, sent over an authenticated
    socket, for a room that exists and whose host is the caller. *)
Lemma handleStartGame_by_host (ws : Ws) (p : StartPayload) (rid eoa : string)
    (room : Room) (s : Server) :
  roomId p = Some rid -> rid <> "" ->
  findPlayer (connections s) ws = Some eoa -> eoa <> "" ->
  rooms s !! rid = Some room ->
  host (players room) = Some eoa ->
  handleStartGame ws (Some p) s
  = if negb (truthy (guest (players room))) then
      (Returned,
       sendError ws "ROOM_NOT_FULL" "Room must have two players to start the game" s)
    else
      match
        match gameState room with
        | Some gs => Some (gs, s)
        | None =>
            match Engine.createGame eoa (default "" (guest (players room))) (rng s) with
            | None => None
            | Some (gs, rng') =>
                Some (gs, setRng rng'
                            (setRooms (<[rid := setGameState room gs]> (rooms s)) s))
            end
        end
      with
      | None => (Thrown, s)
      | Some (gs, s1) => (Returned, started rid room gs s1)
      end.
Proof.
  intros Hrid Hne Hp Hpne Hroom Hhost. unfold handleStartGame.
  rewrite Hrid, (HandlersFacts.truthy_Some rid Hne).
  cbn [negb default from_option]. unfold Datatypes.id.
  rewrite Hp, (HandlersFacts.truthy_Some eoa Hpne). cbn [negb].
  rewrite Hroom, Hhost, bool_decide_true by done.
  rewrite (HandlersFacts.truthy_Some eoa Hpne). cbn [negb orb default from_option].
  unfold Datatypes.id. reflexivity.
Qed.

(** X3.  Whatever the socket, the payload and the state, a start-game
    request ends in one of three ways: a single error is sent to the caller
    and nothing else changes; or the handler rejects and the state is
    untouched; or the caller is the authenticated host of an existing room
    with a guest, in which case the room holds a game state, its game loop
    is running, every other room is as before, and exactly [game:started]
    then [room:state] were broadcast to the room. *)
Theorem handleStartGame_outcomes (ws : Ws) (payload : option StartPayload) (s : Server) :
  let c := fst (handleStartGame ws payload s) in
  let s' := snd (handleStartGame ws payload s) in
  (c = Returned /\ sameButOutbox s s'
   /\ exists code msg, outbox s' = outbox s ++ [ErrorSent ws code msg])
  \/ (c = Thrown /\ s' = s)
  \/ (c = Returned
      /\ exists rid eoa room gs,
           payload ≫= roomId = Some rid
           /\ findPlayer (connections s) ws = Some eoa
           /\ rooms s !! rid = Some room
           /\ host (players room) = Some eoa
           /\ truthy (guest (players room)) = true
           /\ rooms s' !! rid ≫= gameState = Some gs
           /\ (forall other, other <> rid -> rooms s' !! other = rooms s !! other)
           /\ loopRunning s' rid
           /\ connections s' = connections s /\ timeouts s' = timeouts s
           /\ store s' = store s /\ closeCalls s' = closeCalls s
           /\ outbox s'
              = outbox s ++ [Broadcast rid "game:started" (StartedPayload rid);
                             Broadcast rid "room:state"
                               (GameStatePayload gs rid (betAmount room))]).
Proof.
  cbv zeta.
  destruct (handleStartGame_cases ws payload s)
    as [(code & msg & ->) | [(-> & _) | (rid & eoa & room & g & gs & s1 & Hrid & Hne & Hp
         & Hpne & Hroom & Hhost & Hguest & Hgne & Hs1 & ->)]].
  - left. simpl. split; [done|]. split; [apply sameButOutbox_sendError|]. eauto.
  - right; left. done.
  - right; right. split; [done|]. exists rid, eoa, room, gs. cbn [fst snd].
    destruct (started_effect rid room gs s1)
      as (_ & _ & _ & Hr & Hc & Ht & Hst & _ & Hcc & Ho).
    rewrite Hr, Hc, Ht, Hst, Hcc, Ho.
    pose proof (started_loopRunning rid room gs s1) as Hrun.
    rewrite Hguest, (HandlersFacts.truthy_Some g Hgne).
    destruct Hs1 as [[Hgs ->] | (Hgs & rng' & Hc' & ->)].
    + rewrite Hroom. simpl. by split_and!.
    + simpl. rewrite lookup_insert_eq. simpl. split_and!; try done.
      intros other Hother. by rewrite lookup_insert_ne.
Qed.

(** X4.  The host cannot start a room that has no guest (none, or an empty
    address): the only effect is the error [ROOM_NOT_FULL] sent to the
    host; no game state is created and no loop is started. *)
Theorem handleStartGame_room_not_full (ws : Ws) (p : StartPayload) (rid eoa : string)
    (room : Room) (s : Server) :
  roomId p = Some rid -> rid <> "" ->
  findPlayer (connections s) ws = Some eoa -> eoa <> "" ->
  rooms s !! rid = Some room ->
  host (players room) = Some eoa ->
  guest (players room) = None \/ guest (players room) = Some "" ->
  handleStartGame ws (Some p) s
  = (Returned,
     sendError ws "ROOM_NOT_FULL" "Room must have two players to start the game" s)
  /\ sameButOutbox s (snd (handleStartGame ws (Some p) s))
  /\ rooms (snd (handleStartGame ws (Some p) s)) !! rid = Some room
  /\ (loopRunning (snd (handleStartGame ws (Some p) s)) rid -> loopRunning s rid).
Proof.
  intros Hrid Hne Hp Hpne Hroom Hhost Hguest.
  rewrite (handleStartGame_by_host ws p rid eoa room s) by done.
  assert (truthy (guest (players room)) = false) as ->
    by (by destruct Hguest as [-> | ->]).
  cbn [negb snd]. split_and!; [done | apply sameButOutbox_sendError | done | done].
Qed.

(** X5.  When the room already has a game state, the host's start-game
    request keeps it: no new game is created, whether or not the addresses
    are valid, the rooms and the random source are untouched, the handler
    cannot reject, and the state broadcast is the existing one. *)
Theorem handleStartGame_keeps_existing_game (ws : Ws) (p : StartPayload)
    (rid eoa guestEOA : string) (room : Room) (gs : Engine.GameState) (s : Server) :
  roomId p = Some rid -> rid <> "" ->
  findPlayer (connections s) ws = Some eoa -> eoa <> "" ->
  rooms s !! rid = Some room ->
  host (players room) = Some eoa ->
  guest (players room) = Some guestEOA -> guestEOA <> "" ->
  gameState room = Some gs ->
  let s' := snd (handleStartGame ws (Some p) s) in
  fst (handleStartGame ws (Some p) s) = Returned
  /\ rooms s' = rooms s /\ rng s' = rng s
  /\ loopRunning s' rid
  /\ outbox s'
     = outbox s ++ [Broadcast rid "game:started" (StartedPayload rid);
                    Broadcast rid "room:state" (GameStatePayload gs rid (betAmount room))].
Proof.
  intros Hrid Hne Hp Hpne Hroom Hhost Hguest Hgne Hgs.
  rewrite (handleStartGame_by_host ws p rid eoa room s) by done.
  rewrite Hguest, (HandlersFacts.truthy_Some guestEOA Hgne), Hgs. cbn [negb fst snd].
  destruct (started_effect rid room gs s) as (_ & _ & _ & Hr & _ & _ & _ & Hrng & _ & Ho).
  split_and!; try done. apply started_loopRunning.
Qed.

(** X6.  For a room without a game state, the host's start-game request
    rejects exactly when [ethers.getAddress] refuses the host's or the
    guest's address, and then nothing was written: no game state, no
    message, no loop.  Otherwise the game state stored in the room is the
    one [createGame] returned. *)
Theorem handleStartGame_rejects_on_bad_address (ws : Ws) (p : StartPayload)
    (rid eoa guestEOA : string) (room : Room) (s : Server) :
  roomId p = Some rid -> rid <> "" ->
  findPlayer (connections s) ws = Some eoa -> eoa <> "" ->
  rooms s !! rid = Some room ->
  host (players room) = Some eoa ->
  guest (players room) = Some guestEOA -> guestEOA <> "" ->
  gameState room = None ->
  let c := fst (handleStartGame ws (Some p) s) in
  let s' := snd (handleStartGame ws (Some p) s) in
  (c = Thrown
   <-> Engine.getAddress eoa = None \/ Engine.getAddress guestEOA = None)
  /\ (c = Thrown -> s' = s)
  /\ (c = Returned ->
      exists gs rng',
        Engine.createGame eoa guestEOA (rng s) = Some (gs, rng')
        /\ rooms s' = <[rid := setGameState room gs]> (rooms s)
        /\ rng s' = rng').
Proof.
  intros Hrid Hne Hp Hpne Hroom Hhost Hguest Hgne Hgs.
  rewrite (handleStartGame_by_host ws p rid eoa room s) by done.
  rewrite Hguest, (HandlersFacts.truthy_Some guestEOA Hgne), Hgs.
  cbn [negb default from_option]. unfold Datatypes.id.
  destruct (Engine.createGame eoa guestEOA (rng s)) as [[gs rng']|] eqn:Hc;
    cbn [fst snd].
  - split_and!; [|done|].
    + split; [done|]. unfold Engine.createGame in Hc.
      intros [Hbad | Hbad]; rewrite Hbad in Hc; [done|].
      by destruct (Engine.getAddress eoa).
    + intros _. exists gs, rng'.
      destruct (started_effect rid room gs
                  (setRng rng' (setRooms (<[rid := setGameState room gs]> (rooms s)) s)))
        as (_ & _ & _ & Hr & _ & _ & _ & Hrng & _).
      by rewrite Hr, Hrng.
  - split_and!; [|done|done].
    split; [intros _|done]. unfold Engine.createGame in Hc.
    destruct (Engine.getAddress eoa); [|by left].
    destruct (Engine.getAddress guestEOA); [done|by right].
Qed.

(** X7.  A socket that belongs to no connection, or only to connections
    registered under the empty address, is not authenticated: a start-game
    request with a room id and a valid direction change both get
    [NOT_AUTHENTICATED] and change nothing else; the room manager is not
    consulted. *)
Theorem unauthenticated_socket_refused (ws : Ws) (p : StartPayload) (rid : string)
    (d : DirectionPayload) (s : Server) :
  (forall e, (e, ws) ∈ connections s -> e = "") ->
  roomId p = Some rid -> rid <> "" ->
  validateDirectionPayload (Some d) = Valid ->
  handleStartGame ws (Some p) s
  = (Returned, sendError ws "NOT_AUTHENTICATED" "Player not authenticated" s)
  /\ handleDirectionChange ws (Some d) s
     = (Returned, sendError ws "NOT_AUTHENTICATED" "Player not authenticated" s).
Proof.
  intros Hconn Hrid Hne Hvalid.
  assert (truthy (findPlayer (connections s) ws) = false) as Hno.
  { destruct (findPlayer (connections s) ws) as [e|] eqn:Hf; [|done].
    apply findPlayer_Some, Hconn in Hf. by subst. }
  split.
  - unfold handleStartGame. rewrite Hrid, (HandlersFacts.truthy_Some rid Hne).
    cbn [negb]. by rewrite Hno.
  - unfold handleDirectionChange. by rewrite Hvalid, Hno.
Qed.

(** *** Direction changes *)

(** X8.  A direction change the room manager refuses is answered with
    [DIRECTION_CHANGE_FAILED] carrying the manager's own error text, and
    the move is not tracked: [addMoveToSession] is not reached, so the
    session storage is as before.  The rooms are whatever the manager
    left. *)
Theorem handleDirectionChange_refused_not_tracked (ws : Ws) (p : DirectionPayload)
    (eoa error : string) (rooms' : gmap string Room) (s : Server) :
  validateDirectionPayload (Some p) = Valid ->
  findPlayer (connections s) ws = Some eoa -> eoa <> "" ->
  processDirectionChange (rooms s) (directionRoomId p) (direction p) eoa
  = (DirectionFailed error, rooms') ->
  let s' := snd (handleDirectionChange ws (Some p) s) in
  fst (handleDirectionChange ws (Some p) s) = Returned
  /\ outbox s' = outbox s ++ [ErrorSent ws "DIRECTION_CHANGE_FAILED" error]
  /\ store s' = store s
  /\ rooms s' = rooms'.
Proof.
  intros Hvalid Hp Hpne Hproc. unfold handleDirectionChange.
  rewrite Hvalid, Hp, (HandlersFacts.truthy_Some eoa Hpne).
  cbn [negb default from_option]. unfold Datatypes.id. by rewrite Hproc.
Qed.

(** X9.  Whatever the socket, the payload and the state, a direction
    change never touches the loops, the timers, the connections, the
    random source or the trace of close calls, and sends at most one
    message, an error to the caller.  A payload the validator refuses gets
    [INVALID_PAYLOAD] with the validator's text and reaches neither the
    room manager nor the session storage; the handler rejects only for a
    [null] payload the validator let through, with the state untouched. *)
Theorem handleDirectionChange_frame (ws : Ws) (payload : option DirectionPayload)
    (s : Server) :
  let c := fst (handleDirectionChange ws payload s) in
  let s' := snd (handleDirectionChange ws payload s) in
  gameLoops s' = gameLoops s /\ intervals s' = intervals s
  /\ timeouts s' = timeouts s /\ nextHandle s' = nextHandle s
  /\ connections s' = connections s /\ rng s' = rng s
  /\ closeCalls s' = closeCalls s
  /\ (outbox s' = outbox s
      \/ exists code msg, outbox s' = outbox s ++ [ErrorSent ws code msg])
  /\ (forall error, validateDirectionPayload payload = Invalid error ->
        c = Returned /\ rooms s' = rooms s /\ store s' = store s
        /\ outbox s' = outbox s ++ [ErrorSent ws "INVALID_PAYLOAD" error])
  /\ (c = Thrown ->
      payload = None /\ validateDirectionPayload None = Valid /\ s' = s).
Proof.
  cbv zeta. unfold handleDirectionChange.
  destruct (validateDirectionPayload payload) as [|error] eqn:Hvalid.
  - destruct payload as [p|].
    + destruct (truthy (findPlayer (connections s) ws)); cbn [negb].
      * destruct (processDirectionChange _ _ _ _) as [[error|] rooms'].
        -- simpl. split_and!; eauto; done.
        -- destruct (addMoveToSession _ _ _ _) as [[] st']; simpl;
             split_and!; eauto; done.
      * simpl. split_and!; eauto; done.
    + simpl. split_and!; eauto; done.
  - simpl. split_and!; eauto; try done.
    intros error' [= <-]. done.
Qed.

(** *** Loops and ticks *)

(** The tail both interval callbacks run when the match is over. *)
Lemma game_over_tail_effect (h : nat) (rid : string) (gs : Engine.GameState)
    (s2 : Server) :
  let s3 := clearInterval h s2 in
  let s' :=
    setTimeout 5000 rid
      (unawaited rid
         (handleGameOverAppSession rid gs
            (broadcastToRoom rid "game:over" (GameOverPayload gs)
               (setGameLoops (delete rid (gameLoops s3)) s3)))) in
  intervals s' = delete h (intervals s2)
  /\ gameLoops s' = delete rid (gameLoops s2)
  /\ nextHandle s' = nextHandle s2
  /\ rooms s' = rooms s2 /\ rng s' = rng s2 /\ connections s' = connections s2
  /\ timeouts s' = timeouts s2 ++ [(5000, rid)]
  /\ outbox s' = outbox s2 ++ [Broadcast rid "game:over" (GameOverPayload gs)]
  /\ (closeCalls s' = closeCalls s2
      \/ exists room, rooms s2 !! rid = Some room
           /\ closeCalls s'
              = closeCalls s2 ++ [(rid, winnerEOAOf room gs, gameDataOf gs)]).
Proof.
  cbv zeta.
  match goal with
  | |- context [handleGameOverAppSession rid gs ?t] =>
      pose proof (HandlersFacts.handleGameOverAppSession_frame rid gs t) as Hf;
      cbv zeta in Hf;
      destruct Hf as (Hr & Hc & Hg & Hi & Ht & Hn & Hrng & Ho & Hcc)
  end.
  cbn [timeouts setTimeout setTimeouts intervals gameLoops rooms closeCalls
       nextHandle rng connections outbox].
  rewrite Hr, Hc, Hg, Hi, Ht, Hn, Hrng, Ho.
  split_and!; [done | done | done | done | done | done | done | done |].
  destruct Hcc as [Hcc | (room & Hroom & Hcc)]; rewrite Hcc; [by left|].
  right. by exists room.
Qed.

(** X12.  When [updateGameState] fails for the room of a game loop (the
    room is gone, say), the tick stops the loop and does nothing else: the
    interval is cleared and unregistered, nothing is broadcast, no close is
    attempted, no cleanup is scheduled, and the interval never fires
    again. *)
Theorem gameLoopTick_stops_on_failure (h : nat) (rid error : string)
    (rooms' : gmap string Room) (rng' : Engine.Rng) (s : Server) :
  intervals s !! h = Some (GameLoop rid) ->
  updateGameState (rooms s) (rng s) rid = (UpdateFailed error, rooms', rng') ->
  let s' := fireInterval h s in
  intervals s' = delete h (intervals s)
  /\ gameLoops s' = delete rid (gameLoops s)
  /\ outbox s' = outbox s /\ closeCalls s' = closeCalls s
  /\ timeouts s' = timeouts s /\ store s' = store s
  /\ fireInterval h s' = s'.
Proof.
  intros Hint Hupd. cbv zeta.
  assert (fireInterval h s
          = setGameLoops (delete rid (gameLoops s))
              (clearInterval h (setRng rng' (setRooms rooms' s)))) as ->.
  { unfold fireInterval, gameLoopTick. by rewrite Hint, Hupd. }
  split_and!; try done.
  unfold fireInterval. simpl. by rewrite lookup_delete_eq.
Qed.

(** X13.  A tick of a game loop whose update succeeds broadcasts the new
    state as [game:update], with the bet of the room as it is after the
    update, or 0 when the room is no longer there; when the match is over
    it then broadcasts [game:over] for the same state, and sends nothing
    else.  While the match is not over the tick leaves loops, timers,
    session storage and the trace of close calls alone. *)
Theorem gameLoopTick_broadcasts (h : nat) (rid : string) (gs : Engine.GameState)
    (over : bool) (rooms' : gmap string Room) (rng' : Engine.Rng) (s : Server) :
  intervals s !! h = Some (GameLoop rid) ->
  updateGameState (rooms s) (rng s) rid = (Updated gs over, rooms', rng') ->
  let s' := fireInterval h s in
  let bet := match rooms' !! rid with
             | Some currentRoom => betAmount currentRoom
             | None => 0%Q
             end in
  outbox s'
  = outbox s ++ Broadcast rid "game:update" (GameStatePayload gs rid bet)
               :: (if over then [Broadcast rid "game:over" (GameOverPayload gs)] else [])
  /\ rooms s' = rooms' /\ rng s' = rng'
  /\ (over = false ->
      intervals s' = intervals s /\ gameLoops s' = gameLoops s
      /\ timeouts s' = timeouts s /\ store s' = store s
      /\ closeCalls s' = closeCalls s).
Proof.
  intros Hint Hupd. cbv zeta. unfold fireInterval, gameLoopTick.
  rewrite Hint, Hupd. cbv zeta. destruct over.
  - match goal with
    | |- context [clearInterval h ?t] =>
        pose proof (game_over_tail_effect h rid gs t) as Hf; cbv zeta in Hf;
        destruct Hf as (_ & _ & _ & Hr & Hrng & _ & _ & Ho & _)
    end.
    rewrite Hr, Hrng, Ho. simpl. rewrite <- app_assoc. by split_and!.
  - simpl. by split_and!.
Qed.

(** X14.  A tick of a game-over detection loop never moves a snake: rooms
    and random source are as before.  When the room or its game state is
    missing the loop stops silently; while the match is running the tick
    changes nothing at all; once the match is over the loop stops,
    [game:over] is broadcast, [closeAppSession] is called at most once and
    the room's cleanup is scheduled 5000 ms later. *)
Theorem detectionTick_only_watches (h : nat) (rid : string) (s : Server) :
  intervals s !! h = Some (GameOverDetectionLoop rid) ->
  let s' := fireInterval h s in
  rooms s' = rooms s /\ rng s' = rng s
  /\ match rooms s !! rid ≫= gameState with
     | None =>
         intervals s' = delete h (intervals s)
         /\ gameLoops s' = delete rid (gameLoops s)
         /\ outbox s' = outbox s /\ closeCalls s' = closeCalls s
         /\ timeouts s' = timeouts s /\ store s' = store s
     | Some gs =>
         if Engine.isGameOver gs then
           intervals s' = delete h (intervals s)
           /\ gameLoops s' = delete rid (gameLoops s)
           /\ outbox s' = outbox s ++ [Broadcast rid "game:over" (GameOverPayload gs)]
           /\ timeouts s' = timeouts s ++ [(5000, rid)]
           /\ (closeCalls s' = closeCalls s
               \/ exists room, rooms s !! rid = Some room
                    /\ closeCalls s'
                       = closeCalls s ++ [(rid, winnerEOAOf room gs, gameDataOf gs)])
         else s' = s
     end.
Proof.
  intros Hint. cbv zeta. unfold fireInterval, detectionTick. rewrite Hint.
  destruct (rooms s !! rid ≫= gameState) as [gs|] eqn:Hgs.
  - destruct (Engine.isGameOver gs); [|done].
    pose proof (game_over_tail_effect h rid gs s) as Hf. cbv zeta in Hf.
    destruct Hf as (Hi & Hg & _ & Hr & Hrng & _ & Ht & Ho & Hcc).
    by split_and!.
  - simpl. by split_and!.
Qed.

(** *** One loop per room *)

Lemma loopsConsistent_same (s s' : Server) :
  intervals s' = intervals s -> gameLoops s' = gameLoops s ->
  nextHandle s' = nextHandle s ->
  loopsConsistent s -> loopsConsistent s'.
Proof. unfold loopsConsistent. by intros -> -> ->. Qed.

Lemma loopsConsistent_start (loop : Loop) (s s' : Server) :
  intervals s' = intervalsAfterStart loop s ->
  gameLoops s' = <[loopRoom loop := nextHandle s]> (gameLoops s) ->
  nextHandle s' = S (nextHandle s) ->
  loopsConsistent s -> loopsConsistent s'.
Proof.
  intros Hi Hg Hn [Hlive Hreg]. split.
  - intros h l Hl. rewrite Hi in Hl. rewrite Hg, Hn.
    unfold intervalsAfterStart in Hl.
    destruct (decide (h = nextHandle s)) as [->|Hh].
    + rewrite lookup_insert_eq in Hl. injection Hl as <-.
      split; [lia|]. by rewrite lookup_insert_eq.
    + rewrite lookup_insert_ne in Hl by done.
      assert (intervals s !! h = Some l
              /\ gameLoops s !! loopRoom loop <> Some h) as [Hl' Hold].
      { destruct (gameLoops s !! loopRoom loop) as [h0|] eqn:Hr.
        - apply lookup_delete_Some in Hl as [Hne Hl]. split; [done|congruence].
        - done. }
      destruct (Hlive h l Hl') as [Hlt Hr]. split; [lia|].
      rewrite lookup_insert_ne; [done|]. intros Heq. by rewrite Heq in Hold.
  - intros r h. rewrite Hg, Hi. unfold intervalsAfterStart.
    destruct (decide (loopRoom loop = r)) as [<-|Hr].
    + rewrite lookup_insert_eq. intros [= <-]. exists loop.
      by rewrite lookup_insert_eq.
    + rewrite lookup_insert_ne by done. intros Hh.
      destruct (Hreg r h Hh) as (l & Hl & Hlr). exists l. split; [|done].
      destruct (Hlive h l Hl) as [Hlt _].
      rewrite lookup_insert_ne by lia.
      destruct (gameLoops s !! loopRoom loop) as [h0|] eqn:Hr0; [|done].
      rewrite lookup_delete_ne; [done|]. intros <-.
      destruct (Hreg _ _ Hr0) as (l0 & Hl0 & Hlr0). congruence.
Qed.

Lemma loopsConsistent_stop (h : nat) (l0 : Loop) (s s' : Server) :
  intervals s !! h = Some l0 ->
  intervals s' = delete h (intervals s) ->
  gameLoops s' = delete (loopRoom l0) (gameLoops s) ->
  nextHandle s' = nextHandle s ->
  loopsConsistent s -> loopsConsistent s'.
Proof.
  intros Hl0 Hi Hg Hn [Hlive Hreg]. split.
  - intros h' l Hl. rewrite Hi in Hl. rewrite Hg, Hn.
    apply lookup_delete_Some in Hl as [Hne Hl].
    destruct (Hlive h' l Hl) as [Hlt Hr]. split; [done|].
    rewrite lookup_delete_ne; [done|]. intros Heq.
    destruct (Hlive h l0 Hl0) as [_ Hr0]. rewrite Heq in Hr0. congruence.
  - intros r h'. rewrite Hg, Hi. intros Hh.
    apply lookup_delete_Some in Hh as [Hr Hh].
    destruct (Hreg r h' Hh) as (l & Hl & Hlr). exists l. split; [|done].
    rewrite lookup_delete_ne; [done|]. intros <-. congruence.
Qed.

Lemma handle_loopsConsistent (e : Event) (s : Server) :
  loopsConsistent s -> loopsConsistent (handle e s).
Proof.
  intros Hinv. destruct e as [ws payload | ws payload | rid | h |]; simpl.
  - destruct (handleStartGame_cases ws payload s)
      as [(code & msg & ->) | [(-> & _) | (rid & eoa & room & g & gs & s1 & _ & _ & _
           & _ & _ & _ & _ & _ & Hs1 & ->)]]; [done | done |].
    destruct (started_effect rid room gs s1) as (Hi & Hg & Hn & _).
    cbn [snd].
    assert (intervals s1 = intervals s /\ gameLoops s1 = gameLoops s
            /\ nextHandle s1 = nextHandle s) as (Hi1 & Hg1 & Hn1)
      by (by destruct Hs1 as [[_ ->] | (_ & rng' & _ & ->)]).
    apply (loopsConsistent_start (GameLoop rid) s); [| |lia|done].
    + rewrite Hi. unfold intervalsAfterStart. by rewrite Hi1, Hg1, Hn1.
    + rewrite Hg. simpl. by rewrite Hg1, Hn1.
  - unfold handleDirectionChange.
    destruct (validateDirectionPayload payload); [|done].
    destruct payload as [p|]; [|done].
    destruct (truthy (findPlayer (connections s) ws)); cbn [negb]; [|done].
    destruct (processDirectionChange _ _ _ _) as [[error|] rooms']; [done|].
    by destruct (addMoveToSession _ _ _ _) as [[] st'].
  - destruct (startGameOverDetectionLoop_effect rid s) as (Hi & Hg & Hn & _).
    by apply (loopsConsistent_start (GameOverDetectionLoop rid) s).
  - unfold fireInterval. destruct (intervals s !! h) as [[rid|rid]|] eqn:Hlive; [| |done].
    + unfold gameLoopTick.
      destruct (updateGameState (rooms s) (rng s) rid) as [[[error|gs over] rooms'] rng'].
      * by apply (loopsConsistent_stop h (GameLoop rid) s).
      * cbv zeta. destruct over; [|done].
        match goal with
        | |- context [clearInterval h ?t] =>
            pose proof (game_over_tail_effect h rid gs t) as Hf; cbv zeta in Hf;
            destruct Hf as (Hi & Hg & Hn & _)
        end.
        by apply (loopsConsistent_stop h (GameLoop rid) s).
    + unfold detectionTick.
      destruct (rooms s !! rid ≫= gameState) as [gs|].
      * destruct (Engine.isGameOver gs); [|done].
        pose proof (game_over_tail_effect h rid gs s) as Hf. cbv zeta in Hf.
        destruct Hf as (Hi & Hg & Hn & _).
        by apply (loopsConsistent_stop h (GameOverDetectionLoop rid) s).
      * by apply (loopsConsistent_stop h (GameOverDetectionLoop rid) s).
  - unfold fireTimeout. by destruct (timeouts s) as [|[]].
Qed.

Lemma run_loopsConsistent (es : list Event) (s : Server) :
  loopsConsistent s -> loopsConsistent (run es s).
Proof.
  revert s. induction es as [|e es IH]; intros s Hinv; [done|].
  simpl. apply IH. by apply handle_loopsConsistent.
Qed.

(** X10.  From a state with no interval installed and none registered
    (the server as it starts), after any sequence of
    client messages, loop starts, interval ticks and timeouts, a room is
    driven by at most one live interval, and that interval is the one
    registered for the room in [gameLoops]: two loops never tick the same
    room. *)
Theorem one_live_loop_per_room (es : list Event) (s : Server) :
  intervals s = ∅ -> gameLoops s = ∅ ->
  let s' := run es s in
  (forall h l, intervals s' !! h = Some l -> gameLoops s' !! loopRoom l = Some h)
  /\ (forall h1 h2 l1 l2,
        intervals s' !! h1 = Some l1 -> intervals s' !! h2 = Some l2 ->
        loopRoom l1 = loopRoom l2 -> h1 = h2 /\ l1 = l2).
Proof.
  intros Hempty Hnone s'.
  assert (loopsConsistent s') as Hinv.
  { apply run_loopsConsistent. split.
    - intros h l Hl. by rewrite Hempty in Hl.
    - intros r h Hr. by rewrite Hnone in Hr. }
  destruct Hinv as [Hinv _]. split.
  - intros h l Hl. by destruct (Hinv h l Hl).
  - intros h1 h2 l1 l2 Hl1 Hl2 Heq.
    destruct (Hinv h1 l1 Hl1) as [_ Hr1]. destruct (Hinv h2 l2 Hl2) as [_ Hr2].
    rewrite Heq in Hr1. assert (h1 = h2) as -> by congruence.
    split; [done|congruence].
Qed.

(** X11.  Starting a loop for a room, of either kind, replaces whatever
    loop the room had: afterwards the fresh interval is live and registered
    for the room, it is the room's only live interval (a game loop that was
    running is gone once a detection loop is started, and the other way
    round), and the intervals of the other rooms are untouched. *)
Theorem starting_a_loop_replaces_the_old_one (rid : string) (s : Server) :
  loopsConsistent s ->
  (let s' := startGameLoop rid s in
   intervals s' !! nextHandle s = Some (GameLoop rid)
   /\ gameLoops s' !! rid = Some (nextHandle s)
   /\ (forall h l, intervals s' !! h = Some l -> loopRoom l = rid ->
         h = nextHandle s /\ l = GameLoop rid)
   /\ (forall h l, loopRoom l <> rid ->
         intervals s' !! h = Some l <-> intervals s !! h = Some l))
  /\ (let s' := startGameOverDetectionLoop rid s in
      intervals s' !! nextHandle s = Some (GameOverDetectionLoop rid)
      /\ gameLoops s' !! rid = Some (nextHandle s)
      /\ (forall h l, intervals s' !! h = Some l -> loopRoom l = rid ->
            h = nextHandle s /\ l = GameOverDetectionLoop rid)
      /\ (forall h l, loopRoom l <> rid ->
            intervals s' !! h = Some l <-> intervals s !! h = Some l)).
Proof.
  intros Hinv.
  assert (forall (loop : Loop) (s' : Server),
    loopRoom loop = rid ->
    intervals s' = intervalsAfterStart loop s ->
    gameLoops s' = <[rid := nextHandle s]> (gameLoops s) ->
    nextHandle s' = S (nextHandle s) ->
    intervals s' !! nextHandle s = Some loop
    /\ gameLoops s' !! rid = Some (nextHandle s)
    /\ (forall h l, intervals s' !! h = Some l -> loopRoom l = rid ->
          h = nextHandle s /\ l = loop)
    /\ (forall h l, loopRoom l <> rid ->
          intervals s' !! h = Some l <-> intervals s !! h = Some l)) as Hboth.
  { intros loop s' Hroom Hi Hg Hn.
    assert (loopsConsistent s') as Hinv'
      by (apply (loopsConsistent_start loop s); by rewrite ?Hroom).
    assert (intervals s' !! nextHandle s = Some loop) as Hfresh
      by (rewrite Hi; unfold intervalsAfterStart; by rewrite lookup_insert_eq).
    split_and!; [done | by rewrite Hg, lookup_insert_eq | |].
    - intros h l Hl Hr. destruct (proj1 Hinv' h l Hl) as [_ Hreg].
      rewrite Hr, Hg, lookup_insert_eq in Hreg. injection Hreg as <-.
      split; [done|congruence].
    - intros h l Hr. rewrite Hi. unfold intervalsAfterStart. rewrite Hroom.
      destruct (decide (h = nextHandle s)) as [->|Hh].
      + rewrite lookup_insert_eq. split.
        * intros [= <-]. by rewrite Hroom in Hr.
        * intros Hl. destruct (proj1 Hinv _ _ Hl). lia.
      + rewrite lookup_insert_ne by done.
        destruct (gameLoops s !! rid) as [h0|] eqn:Hreg; [|done].
        rewrite lookup_delete_Some. split; [by intros [_ ?]|].
        intros Hl. split; [|done]. intros <-.
        destruct (proj2 Hinv _ _ Hreg) as (l0 & Hl0 & Hlr0). congruence. }
  split; cbv zeta.
  - destruct (startGameLoop_effect rid s) as (Hi & Hg & Hn & _). by apply Hboth.
  - destruct (startGameOverDetectionLoop_effect rid s) as (Hi & Hg & Hn & _).
    by apply Hboth.
Qed.

(** X15.  When the host sends start-game twice for a fresh room, the second
    request keeps the game the first one created (same rooms, same random
    source), cannot reject, and replaces the loop: the first interval is
    cleared and the room is driven by exactly one live interval, the new
    one. *)
Theorem start_twice_one_game_one_loop (ws : Ws) (p : StartPayload)
    (rid eoa guestEOA : string) (room : Room) (gs : Engine.GameState)
    (rng' : Engine.Rng) (s : Server) :
  roomId p = Some rid -> rid <> "" ->
  findPlayer (connections s) ws = Some eoa -> eoa <> "" ->
  rooms s !! rid = Some room ->
  host (players room) = Some eoa ->
  guest (players room) = Some guestEOA -> guestEOA <> "" ->
  gameState room = None ->
  Engine.createGame eoa guestEOA (rng s) = Some (gs, rng') ->
  loopsConsistent s ->
  let s1 := snd (handleStartGame ws (Some p) s) in
  let s2 := snd (handleStartGame ws (Some p) s1) in
  fst (handleStartGame ws (Some p) s1) = Returned
  /\ rooms s1 !! rid = Some (setGameState room gs)
  /\ rooms s2 = rooms s1 /\ rng s2 = rng s1
  /\ intervals s1 !! nextHandle s = Some (GameLoop rid)
  /\ intervals s2 !! nextHandle s = None
  /\ intervals s2 !! S (nextHandle s) = Some (GameLoop rid)
  /\ (forall h l, intervals s2 !! h = Some l -> loopRoom l = rid ->
        h = S (nextHandle s)).
Proof.
  intros Hrid Hne Hp Hpne Hroom Hhost Hguest Hgne Hgs Hc Hinv.
  rewrite (handleStartGame_by_host ws p rid eoa room s) by done.
  rewrite Hguest, (HandlersFacts.truthy_Some guestEOA Hgne), Hgs.
  cbn [negb default from_option]. unfold Datatypes.id. rewrite Hc.
  set (sA := setRng rng' (setRooms (<[rid := setGameState room gs]> (rooms s)) s)).
  cbn [snd]. set (s1 := started rid room gs sA).
  destruct (started_effect rid room gs sA) as (Hi1 & Hg1 & Hn1 & Hr1 & Hc1 & _).
  fold s1 in Hi1, Hg1, Hn1, Hr1, Hc1.
  assert (rooms s1 !! rid = Some (setGameState room gs)) as Hroom1
    by (rewrite Hr1; apply lookup_insert_eq).
  assert (loopsConsistent s1) as Hinv1
    by (by apply (loopsConsistent_start (GameLoop rid) s)).
  rewrite (handleStartGame_by_host ws p rid eoa (setGameState room gs) s1);
    [|done|done|by rewrite Hc1|done|done|done].
  cbn [players setGameState gameState].
  rewrite Hguest, (HandlersFacts.truthy_Some guestEOA Hgne). cbn [negb fst snd].
  set (s2 := started rid (setGameState room gs) gs s1).
  destruct (started_effect rid (setGameState room gs) gs s1)
    as (Hi2 & Hg2 & Hn2 & Hr2 & _ & _ & _ & Hrng2 & _).
  fold s2 in Hi2, Hg2, Hn2, Hr2, Hrng2.
  assert (loopsConsistent s2) as Hinv2
    by (by apply (loopsConsistent_start (GameLoop rid) s1)).
  assert (gameLoops s1 !! rid = Some (nextHandle s)) as Hreg1
    by (rewrite Hg1; apply lookup_insert_eq).
  assert (nextHandle s1 = S (nextHandle s)) as Hn1' by done.
  split_and!; try done.
  - rewrite Hi1. unfold intervalsAfterStart. by rewrite lookup_insert_eq.
  - rewrite Hi2. unfold intervalsAfterStart. cbn [loopRoom]. rewrite Hreg1, Hn1'.
    rewrite lookup_insert_ne by lia. apply lookup_delete_eq.
  - rewrite Hi2. unfold intervalsAfterStart. rewrite Hn1'. apply lookup_insert_eq.
  - intros h l Hl Hr. destruct (proj1 Hinv2 h l Hl) as [_ Hreg].
    rewrite Hr, Hg2, lookup_insert_eq in Hreg. congruence.
Qed.

End Generic.

(** *** The theorems at the concrete match *)

Section Concrete.
#[local] Existing Instance Scenario.plainEthers.
#[local] Existing Instance specAppSessions.
#[local] Existing Instance specRoomManager.
#[local] Existing Instance Scenario.specValidators.
Import Scenario.

Lemma crashingServer_consistent (up : bool) : loopsConsistent (crashingServer up).
Proof.
  split.
  - intros h l Hl.
    change (({[ 0%nat := GameLoop roomOne ]} : gmap nat Loop) !! h = Some l) in Hl.
    apply lookup_singleton_Some in Hl as [<- <-].
    split; [simpl; lia|]. apply lookup_singleton_eq.
  - intros r h Hr.
    change (({[ roomOne := 0%nat ]} : gmap string nat) !! r = Some h) in Hr.
    apply lookup_singleton_Some in Hr as [<- <-].
    exists (GameLoop roomOne). split; [apply lookup_singleton_eq|done].
Qed.

Lemma readyServer_consistent : loopsConsistent readyServer.
Proof.
  split.
  - intros h l Hl. change ((∅ : gmap nat Loop) !! h = Some l) in Hl.
    by rewrite lookup_empty in Hl.
  - intros r h Hr. change ((∅ : gmap string nat) !! r = Some h) in Hr.
    by rewrite lookup_empty in Hr.
Qed.

Lemma handleStartGame_room_not_full_witness :
  guest (players waitingRoom) = None
  /\ handleStartGame 1%nat (Some hostPayload)
       (setRooms {[ roomOne := waitingRoom ]} readyServer)
     = (Returned,
        sendError 1%nat "ROOM_NOT_FULL" "Room must have two players to start the game"
          (setRooms {[ roomOne := waitingRoom ]} readyServer)).
Proof.
  split; [reflexivity|].
  destruct (handleStartGame_room_not_full 1%nat hostPayload roomOne hostA waitingRoom
              (setRooms {[ roomOne := waitingRoom ]} readyServer)) as (Heq & _);
    [reflexivity | discriminate | reflexivity | discriminate
    | apply lookup_singleton_eq | reflexivity | left; reflexivity |].
  exact Heq.
Defined.

Lemma handleStartGame_keeps_existing_game_witness :
  gameState (withAppId (setGameState readyRoom game0) "0xapp") = Some game0
  /\ rooms (snd (handleStartGame 1%nat (Some hostPayload) (playingServer game0 ∅ true)))
     = rooms (playingServer game0 ∅ true).
Proof.
  split; [reflexivity|].
  destruct (handleStartGame_keeps_existing_game 1%nat hostPayload roomOne hostA guestB
              (withAppId (setGameState readyRoom game0) "0xapp") game0
              (playingServer game0 ∅ true)) as (_ & Hr & _);
    [reflexivity | discriminate | reflexivity | discriminate
    | apply lookup_singleton_eq | reflexivity | reflexivity | discriminate
    | reflexivity |].
  exact Hr.
Defined.

Lemma handleStartGame_rejects_on_bad_address_witness :
  gameState readyRoom = None
  /\ fst (handleStartGame 1%nat (Some hostPayload) readyServer) <> Thrown.
Proof.
  split; [reflexivity|].
  destruct (handleStartGame_rejects_on_bad_address 1%nat hostPayload roomOne hostA guestB
              readyRoom readyServer) as (Hiff & _);
    [reflexivity | discriminate | reflexivity | discriminate
    | apply lookup_singleton_eq | reflexivity | reflexivity | discriminate
    | reflexivity |].
  intros Hthrown. apply Hiff in Hthrown as [Hbad | Hbad]; discriminate Hbad.
Defined.

Lemma unauthenticated_socket_refused_witness :
  findPlayer (connections readyServer) 3%nat = None
  /\ handleDirectionChange 3%nat (Some uTurn) readyServer
     = (Returned,
        sendError 3%nat "NOT_AUTHENTICATED" "Player not authenticated" readyServer).
Proof.
  split; [reflexivity|].
  destruct (unauthenticated_socket_refused 3%nat hostPayload roomOne uTurn readyServer)
    as (_ & Hd); [|reflexivity | discriminate | reflexivity | exact Hd].
  intros e He. simpl in He.
  apply elem_of_cons in He as [He | He]; [discriminate He|].
  apply elem_of_cons in He as [He | He]; [discriminate He|].
  by apply elem_of_nil in He.
Defined.

Lemma handleDirectionChange_refused_not_tracked_witness :
  let elsewhere := {| directionRoomId := Some "room-2"; direction := Some "LEFT" |} in
  let s := playingServer game0 {[ roomOne := activeSession ]} true in
  fst (processDirectionChange (rooms s) (Some "room-2") (Some "LEFT") hostA)
  = DirectionFailed "Room not found"
  /\ store (snd (handleDirectionChange 1%nat (Some elsewhere) s)) = store s.
Proof.
  cbv zeta. split; [reflexivity|].
  destruct (handleDirectionChange_refused_not_tracked 1%nat
              {| directionRoomId := Some "room-2"; direction := Some "LEFT" |}
              hostA "Room not found"
              (rooms (playingServer game0 {[ roomOne := activeSession ]} true))
              (playingServer game0 {[ roomOne := activeSession ]} true))
    as (_ & _ & Hst & _); [reflexivity | reflexivity | discriminate | reflexivity |].
  exact Hst.
Defined.

Lemma one_live_loop_per_room_witness :
  let es := [StartGameMessage 1%nat (Some hostPayload); IntervalFires 0;
             DetectionStarted roomOne; StartGameMessage 1%nat (Some hostPayload)] in
  intervals readyServer = ∅
  /\ forall h l, intervals (run es readyServer) !! h = Some l ->
       gameLoops (run es readyServer) !! loopRoom l = Some h.
Proof.
  cbv zeta. split; [reflexivity|].
  destruct (one_live_loop_per_room
              [StartGameMessage 1%nat (Some hostPayload); IntervalFires 0;
               DetectionStarted roomOne; StartGameMessage 1%nat (Some hostPayload)]
              readyServer eq_refl eq_refl) as (Hreg & _).
  exact Hreg.
Defined.

Lemma starting_a_loop_replaces_the_old_one_witness :
  intervals (crashingServer true) !! 0%nat = Some (GameLoop roomOne)
  /\ intervals (startGameOverDetectionLoop roomOne (crashingServer true)) !! 1%nat
     = Some (GameOverDetectionLoop roomOne)
  /\ forall h l,
       intervals (startGameOverDetectionLoop roomOne (crashingServer true)) !! h = Some l ->
       loopRoom l = roomOne -> h = 1%nat /\ l = GameOverDetectionLoop roomOne.
Proof.
  split; [reflexivity|].
  destruct (starting_a_loop_replaces_the_old_one roomOne (crashingServer true)
              (crashingServer_consistent true)) as (_ & Hlive & _ & Honly & _).
  split; [exact Hlive | exact Honly].
Defined.

Lemma gameLoopTick_stops_on_failure_witness :
  let s := setRooms ∅ (crashingServer true) in
  intervals s !! 0%nat = Some (GameLoop roomOne)
  /\ intervals (fireInterval 0 s) = delete 0%nat (intervals s)
  /\ outbox (fireInterval 0 s) = [].
Proof.
  cbv zeta. split; [reflexivity|].
  destruct (gameLoopTick_stops_on_failure 0 roomOne "Room not found" ∅ rng0
              (setRooms ∅ (crashingServer true)))
    as (Hi & _ & Ho & _); [reflexivity | reflexivity |].
  split; [exact Hi | exact Ho].
Defined.

Lemma gameLoopTick_broadcasts_witness :
  intervals (crashingServer false) !! 0%nat = Some (GameLoop roomOne)
  /\ outbox (fireInterval 0 (crashingServer false))
     = [Broadcast roomOne "game:update" (GameStatePayload gameAfterCrash roomOne (1 # 10));
        Broadcast roomOne "game:over" (GameOverPayload gameAfterCrash)].
Proof.
  split; [reflexivity|].
  pose (upd := updateGameState (rooms (crashingServer false)) (rng (crashingServer false))
                 roomOne).
  destruct (gameLoopTick_broadcasts 0 roomOne gameAfterCrash true (snd (fst upd))
              (snd upd) (crashingServer false))
    as (Ho & _); [reflexivity | reflexivity |].
  rewrite Ho. reflexivity.
Defined.

Lemma detectionTick_only_watches_witness :
  let s := startGameOverDetectionLoop roomOne (finishedServer true) in
  intervals s !! 1%nat = Some (GameOverDetectionLoop roomOne)
  /\ rooms (fireInterval 1 s) = rooms s.
Proof.
  cbv zeta.
  assert (intervals (startGameOverDetectionLoop roomOne (finishedServer true)) !! 1%nat
          = Some (GameOverDetectionLoop roomOne)) as Hlive by reflexivity.
  split; [exact Hlive|].
  destruct (detectionTick_only_watches 1 roomOne
              (startGameOverDetectionLoop roomOne (finishedServer true)) Hlive)
    as (Hr & _).
  exact Hr.
Defined.

Lemma start_twice_one_game_one_loop_witness :
  loopsConsistent readyServer
  /\ intervals (snd (handleStartGame 1%nat (Some hostPayload)
                       (snd (handleStartGame 1%nat (Some hostPayload) readyServer))))
       !! 0%nat = None.
Proof.
  split; [exact readyServer_consistent|].
  destruct (start_twice_one_game_one_loop 1%nat hostPayload roomOne hostA guestB
              readyRoom game0
              (Engine.drop_draws 2 (Engine.drop_draws 2 (Engine.drop_draws 2 rng0)))
              readyServer)
    as (_ & _ & _ & _ & _ & Hgone & _);
    [reflexivity | discriminate | reflexivity | discriminate
    | apply lookup_singleton_eq | reflexivity | reflexivity | discriminate
    | reflexivity | exact EngineFacts.game0_created | exact readyServer_consistent |].
  exact Hgone.
Defined.

End Concrete.

End HandlersMore.

(** ** The client's signing hook *)

Module ClientFacts.
Import Client.

Section Generic.
Context {Request : Type}.
Context (signWith : string -> Request -> Exception + string).

(** The call [signAppSessionMessage] makes for a message type, if any. *)
Lemma signAndSend_cases (key : string) (cb : Callbacks) (rid : string) (req : Request)
    (t : MessageType) (h : Hook) :
  (exists e, signAndSend signWith key cb rid req t h = (inl e, h)
     /\ (signWith key req = inl e
         \/ exists sig, signWith key req = inr sig
              /\ e = ErrorObject (String.append "No send function for message type: "
                                    (messageTypeName t))
              /\ match t with
                 | SignatureType => sendSignature cb = None
                 | StartGameType => sendStartGame cb = None
                 end))
  \/ (exists sig f log,
        signWith key req = inr sig
        /\ match t with
           | SignatureType => sendSignature cb = Some f /\ log = ViaSendSignature rid sig
           | StartGameType => sendStartGame cb = Some f /\ log = ViaSendStartGame rid sig
           end
        /\ signAndSend signWith key cb rid req t h
           = match f rid sig with
             | Some e =>
                 (inl e, {| isSigningInProgress := isSigningInProgress h;
                            signatureError := signatureError h;
                            sent := sent h ++ [log] |})
             | None =>
                 (inr sig, {| isSigningInProgress := false;
                              signatureError := signatureError h;
                              sent := sent h ++ [log] |})
             end).
Proof.
  unfold signAndSend. destruct (signWith key req) as [e|sig] eqn:Hs.
  - left. exists e. split; [done|by left].
  - destruct t.
    + destruct (sendSignature cb) as [f|] eqn:Hf.
      * right. exists sig, f, (ViaSendSignature rid sig).
        split_and!; try done; try by destruct (f rid sig).
      * left. eexists. split; [done|]. right. exists sig. by split_and!.
    + destruct (sendStartGame cb) as [g|] eqn:Hg.
      * right. exists sig, g, (ViaSendStartGame rid sig).
        split_and!; try done;
          try (destruct (sendSignature cb); by destruct (g rid sig)).
      * left. eexists. split; [by destruct (sendSignature cb)|].
        right. exists sig. by split_and!.
Qed.

(** X16.  With a private key, [signAppSessionMessage] always leaves the
    hook settled: the progress flag is off whether it returns or throws;
    when it returns, the value is the signature the signer produced for
    the request as received and no error is recorded; when it throws, the
    recorded error is the message of the thrown [Error], or
    [Unknown signing error] for any other thrown value. *)
Theorem signing_settles_the_hook (keyPair : option KeyPair) (cb : Callbacks)
    (rid key : string) (req : Request) (t : MessageType) (h : Hook) :
  privateKeyOf keyPair = Some key ->
  let result := fst (signAppSessionMessage signWith keyPair cb rid req t h) in
  let h' := snd (signAppSessionMessage signWith keyPair cb rid req t h) in
  isSigningInProgress h' = false
  /\ match result with
     | inr signature =>
         signWith key req = inr signature /\ signatureError h' = None
     | inl (ErrorObject message) => signatureError h' = Some message
     | inl OtherValue => signatureError h' = Some "Unknown signing error"
     end.
Proof.
  intros Hkey. cbv zeta. unfold signAppSessionMessage. rewrite Hkey.
  set (h0 := {| isSigningInProgress := true; signatureError := None; sent := sent h |}).
  destruct (signAndSend_cases key cb rid req t h0)
    as [(e & -> & _) | (sig & f & log & Hs & _ & ->)].
  - simpl. by destruct e.
  - destruct (f rid sig) as [e|]; simpl; [by destruct e|done].
Qed.

(** X17.  With a private key, [signAppSessionMessage] calls at most one
    callback, at most once, and only the one of its message type, with the
    room id given and the signature of the request; a signature it returns
    has been sent that way.  When the callback of its type is missing the
    signature is not sent at all, even if the other callback is there, and
    the error names the message type. *)
Theorem signature_sent_on_matching_channel (keyPair : option KeyPair) (cb : Callbacks)
    (rid key : string) (req : Request) (t : MessageType) (h : Hook) :
  privateKeyOf keyPair = Some key ->
  let result := fst (signAppSessionMessage signWith keyPair cb rid req t h) in
  let h' := snd (signAppSessionMessage signWith keyPair cb rid req t h) in
  let channel signature :=
    match t with
    | SignatureType => ViaSendSignature rid signature
    | StartGameType => ViaSendStartGame rid signature
    end in
  (sent h' = sent h
   \/ exists signature,
        signWith key req = inr signature /\ sent h' = sent h ++ [channel signature])
  /\ (forall signature, result = inr signature ->
        sent h' = sent h ++ [channel signature])
  /\ (match t with
      | SignatureType => sendSignature cb = None
      | StartGameType => sendStartGame cb = None
      end ->
      sent h' = sent h
      /\ forall signature, signWith key req = inr signature ->
           result = inl (ErrorObject
                           (String.append "No send function for message type: "
                              (messageTypeName t)))).
Proof.
  intros Hkey. cbv zeta. unfold signAppSessionMessage. rewrite Hkey.
  set (h0 := {| isSigningInProgress := true; signatureError := None; sent := sent h |}).
  destruct (signAndSend_cases key cb rid req t h0)
    as [(e & -> & He) | (sig & f & log & Hs & Hf & ->)].
  - simpl. split_and!; [by left | done |].
    intros Hmissing. split; [done|]. intros signature Hsig.
    destruct He as [He | (sig & _ & -> & _)]; [congruence|done].
  - assert (log = match t with
                  | SignatureType => ViaSendSignature rid sig
                  | StartGameType => ViaSendStartGame rid sig
                  end) as -> by (destruct t; by destruct Hf).
    split_and!.
    + right. exists sig. split; [done|]. by destruct (f rid sig).
    + intros signature. destruct (f rid sig); simpl; [done|]. by intros [= <-].
    + intros Hmissing. destruct t; destruct Hf as [Hf _]; congruence.
Qed.

(** X18.  Without a private key (no key pair, no key in it, or an empty
    key) [signAppSessionMessage] throws [No private key available for
    signing] before it touches anything: the progress flag and the recorded
    error are as they were and nothing is sent; the two participant
    handlers rethrow the same error. *)
Theorem signing_without_key_throws (keyPair : option KeyPair) (cb : Callbacks)
    (message : SignatureRequest) (t : MessageType) (h : Hook) :
  keyPair = None
  \/ (exists kp, keyPair = Some kp
        /\ (privateKey kp = None \/ privateKey kp = Some "")) ->
  let noKey := ErrorObject "No private key available for signing" in
  signAppSessionMessage signWith keyPair cb (roomId message) (requestToSign message) t h
  = (inl noKey, h)
  /\ handleParticipantBSignature signWith keyPair cb message h = (Some noKey, h)
  /\ handleParticipantASignature signWith keyPair cb message h = (Some noKey, h).
Proof.
  intros Hno. cbv zeta.
  assert (privateKeyOf keyPair = None) as Hkey.
  { unfold privateKeyOf.
    destruct Hno as [-> | (kp & -> & [Hk | Hk])]; simpl; by rewrite ?Hk. }
  unfold handleParticipantBSignature, handleParticipantASignature,
    signAppSessionMessage. by rewrite Hkey.
Qed.

(** X19.  The guest's handler sends only through [sendSignature] and the
    host's only through [sendStartGame], each at most once and with the
    room id of the message it was given; either handler returns normally
    exactly when [signAppSessionMessage] returned, and otherwise rethrows
    the value it threw. *)
Theorem participant_handlers_use_their_channel (keyPair : option KeyPair)
    (cb : Callbacks) (message : SignatureRequest) (h : Hook) :
  let b := handleParticipantBSignature signWith keyPair cb message h in
  let a := handleParticipantASignature signWith keyPair cb message h in
  (sent (snd b) = sent h
   \/ exists signature,
        sent (snd b) = sent h ++ [ViaSendSignature (roomId message) signature])
  /\ (sent (snd a) = sent h
      \/ exists signature,
           sent (snd a) = sent h ++ [ViaSendStartGame (roomId message) signature])
  /\ (fst b = match fst (signAppSessionMessage signWith keyPair cb (roomId message)
                           (requestToSign message) SignatureType h) with
              | inr _ => None
              | inl e => Some e
              end)
  /\ (fst a = match fst (signAppSessionMessage signWith keyPair cb (roomId message)
                           (requestToSign message) StartGameType h) with
              | inr _ => None
              | inl e => Some e
              end).
Proof.
  cbv zeta. unfold handleParticipantBSignature, handleParticipantASignature.
  assert (forall t,
    let r := signAppSessionMessage signWith keyPair cb (roomId message)
               (requestToSign message) t h in
    sent (snd r) = sent h
    \/ exists signature,
         sent (snd r)
         = sent h ++ [match t with
                      | SignatureType => ViaSendSignature (roomId message) signature
                      | StartGameType => ViaSendStartGame (roomId message) signature
                      end]) as Hsent.
  { intros t. cbv zeta. unfold signAppSessionMessage.
    destruct (privateKeyOf keyPair) as [key|]; [|by left].
    set (h0 := {| isSigningInProgress := true; signatureError := None;
                  sent := sent h |}).
    destruct (signAndSend_cases key cb (roomId message) (requestToSign message) t h0)
      as [(e & -> & _) | (sig & f & log & _ & Hf & ->)]; [by left|].
    right. exists sig.
    assert (log = match t with
                  | SignatureType => ViaSendSignature (roomId message) sig
                  | StartGameType => ViaSendStartGame (roomId message) sig
                  end) as -> by (destruct t; by destruct Hf).
    by destruct (f (roomId message) sig). }
  pose proof (Hsent SignatureType) as Hb. pose proof (Hsent StartGameType) as Ha.
  cbv zeta in Hb, Ha.
  destruct (signAppSessionMessage signWith keyPair cb (roomId message)
              (requestToSign message) SignatureType h) as [[eb|sb] hb];
  destruct (signAppSessionMessage signWith keyPair cb (roomId message)
              (requestToSign message) StartGameType h) as [[ea|sa] ha];
  by split_and!.
Qed.

End Generic.

Lemma signing_settles_the_hook_witness :
  privateKeyOf (Some {| privateKey := Some "0xkey" |}) = Some "0xkey"
  /\ isSigningInProgress
       (snd (signAppSessionMessage demoSigner (Some {| privateKey := Some "0xkey" |})
               bothCallbacks "room-1" "request" SignatureType idleHook)) = false.
Proof.
  split; [reflexivity|].
  destruct (signing_settles_the_hook demoSigner (Some {| privateKey := Some "0xkey" |})
              bothCallbacks "room-1" "0xkey" "request" SignatureType idleHook eq_refl)
    as (Hdone & _).
  exact Hdone.
Defined.

Lemma signature_sent_on_matching_channel_witness :
  privateKeyOf (Some {| privateKey := Some "0xkey" |}) = Some "0xkey"
  /\ sent (snd (signAppSessionMessage demoSigner (Some {| privateKey := Some "0xkey" |})
                  bothCallbacks "room-1" "request" StartGameType idleHook))
     = [ViaSendStartGame "room-1" "0xkeyrequest"].
Proof.
  split; [reflexivity|].
  destruct (signature_sent_on_matching_channel demoSigner
              (Some {| privateKey := Some "0xkey" |}) bothCallbacks "room-1" "0xkey"
              "request" StartGameType idleHook eq_refl) as (_ & Hsent & _).
  exact (Hsent "0xkeyrequest" eq_refl).
Defined.

Lemma signing_without_key_throws_witness :
  handleParticipantBSignature demoSigner (Some {| privateKey := Some "" |}) bothCallbacks
    {| roomId := "room-1"; requestToSign := "request" |} idleHook
  = (Some (ErrorObject "No private key available for signing"), idleHook).
Proof.
  destruct (signing_without_key_throws demoSigner (Some {| privateKey := Some "" |})
              bothCallbacks {| roomId := "room-1"; requestToSign := "request" |}
              SignatureType idleHook) as (_ & Hb & _); [|exact Hb].
  right. eexists. split; [reflexivity|]. right. reflexivity.
Defined.

End ClientFacts.
